(** * A model of the TCP chat server (server.py) and of the client's
      receive path (client.py)

    The server keeps two dictionaries keyed by the client socket
    ([users], [addresses]) and runs one worker per connection.  The
    model below keeps the dictionaries, the sockets the server has
    closed, the peers that are gone, and the text every socket has
    been sent, and turns each method of [ChatServer] into a function
    on that state.  What a worker reads from its socket is an input of
    the model. *)

From Stdlib Require Import NArith String Ascii Sorted.
From stdpp Require Import base list gmap.

Local Open Scope N_scope.

(** ** Python strings *)

(** A [str] is a sequence of code points ([bytes.decode("utf8")] has
    already run).  The server's literals are written as Rocq strings
    and injected with [lit]. *)
Module PyStr.

Abbreviation char := N.
Abbreviation str := (list char).

Definition lit (s : string) : str :=
  map N_of_ascii (list_ascii_of_string s).

(** [str.isspace] on one code point: the characters that
    [str.split()] and [str.strip()] treat as whitespace. *)
Definition isspace (c : char) : bool :=
  ((9 <=? c) && (c <=? 13)) || ((28 <=? c) && (c <=? 32))
  || (c =? 133) || (c =? 160) || (c =? 5760)
  || ((8192 <=? c) && (c <=? 8202))
  || (c =? 8232) || (c =? 8233) || (c =? 8239) || (c =? 8287)
  || (c =? 12288).

(** [s.startswith(p)] *)
Fixpoint startswith (s p : str) {struct p} : bool :=
  match p, s with
  | [], _ => true
  | _ :: _, [] => false
  | a :: p', b :: s' => (a =? b) && startswith s' p'
  end.

(** [p in s] for strings: [p] occurs as a contiguous run of [s]. *)
Fixpoint contains (s p : str) : bool :=
  startswith s p ||
  match s with
  | [] => false
  | _ :: s' => contains s' p
  end.

Fixpoint lstrip (s : str) : str :=
  match s with
  | [] => []
  | c :: s' => if isspace c then lstrip s' else s
  end.

Definition rstrip (s : str) : str := rev (lstrip (rev s)).

(** [s.strip()] *)
Definition strip (s : str) : str := rstrip (lstrip s).

(** [s.split()] with no separator: maximal runs of non-whitespace.
    [tok] is the run being read, most recent character first. *)
Fixpoint split_from (tok : option str) (s : str) : list str :=
  match s with
  | [] => match tok with
          | None => []
          | Some t => [rev t]
          end
  | c :: s' =>
      if isspace c then
        match tok with
        | None => split_from None s'
        | Some t => rev t :: split_from None s'
        end
      else
        match tok with
        | None => split_from (Some [c]) s'
        | Some t => split_from (Some (c :: t)) s'
        end
  end.

Definition split (s : str) : list str := split_from None s.

(** [sep.join(parts)] *)
Fixpoint join (sep : str) (parts : list str) : str :=
  match parts with
  | [] => []
  | [p] => p
  | p :: rest => p ++ sep ++ join sep rest
  end.

(** [a <= b] on strings: lexicographic on code points. *)
Fixpoint leb (a b : str) : bool :=
  match a, b with
  | [], _ => true
  | _ :: _, [] => false
  | x :: a', y :: b' => (x <? y) || ((x =? y) && leb a' b')
  end.

Fixpoint insert_sorted (x : str) (l : list str) : list str :=
  match l with
  | [] => [x]
  | y :: l' => if leb x y then x :: l else y :: insert_sorted x l'
  end.

(** [sorted(l)] on a list of strings. *)
Definition sorted (l : list str) : list str :=
  foldr insert_sorted [] l.

(** Truth value of a string: non-empty. *)
Definition truthy (s : str) : bool :=
  match s with
  | [] => false
  | _ => true
  end.

End PyStr.

Import PyStr.

Example split_demo :
  split (lit "  /whisper  bob  hi there ") = [lit "/whisper"; lit "bob"; lit "hi"; lit "there"].
Proof. reflexivity. Qed.

Example strip_demo : strip (lit "  a b  ") = lit "a b".
Proof. reflexivity. Qed.

Example sorted_demo : sorted [lit "carol"; lit "alice"; lit "bob"] = [lit "alice"; lit "bob"; lit "carol"].
Proof. reflexivity. Qed.

(** ** Dictionaries keyed by socket *)

(** A socket object is known by its identity only. *)
Definition sock := nat.

(** [(host, port)] as returned by [accept]. *)
Definition address := (str * N)%type.

(** [self.users] is read in insertion order (the whisper lookup takes
    the first entry with the wanted name, and [broadcast] walks the
    keys), so it is an association list; a well-formed one has each
    key once. *)
Module Dict.
Abbreviation dict V := (list (sock * V)).

Section Ops.
Context {V : Type}.

Definition keys (d : dict V) : list sock := d.*1.
Definition values (d : dict V) : list V := d.*2.

(** [k in d] *)
Definition mem (k : sock) (d : dict V) : bool := bool_decide (k ∈ keys d).

(** [d[k] = v]: an existing key keeps its place, a new one goes last. *)
Fixpoint set (k : sock) (v : V) (d : dict V) : dict V :=
  match d with
  | [] => [(k, v)]
  | (k', v') :: d' =>
      if decide (k' = k) then (k, v) :: d' else (k', v') :: set k v d'
  end.

(** [del d[k]] for a key that is present. *)
Definition del (k : sock) (d : dict V) : dict V :=
  filter (λ kv, kv.1 ≠ k) d.

Definition wf (d : dict V) : Prop := NoDup (keys d).
End Ops.
End Dict.

(** ** The server and its sockets *)

Record ChatServer := {
  users : Dict.dict str;            (* self.users: socket -> username *)
  addresses : gmap sock address;    (* self.addresses: socket -> address *)
  running : bool;                   (* self.running *)
  (* the sockets, as the server sees them *)
  closed : gset sock;               (* sockets on which close() has run *)
  gone : gset sock;                 (* peers that left: send raises *)
  delivered : list (sock * str)     (* what send put on which socket, oldest first *)
}.

Definition with_users (st : ChatServer) (u : Dict.dict str) : ChatServer :=
  {| users := u; addresses := addresses st; running := running st;
     closed := closed st; gone := gone st; delivered := delivered st |}.

Definition with_addresses (st : ChatServer) (a : gmap sock address) : ChatServer :=
  {| users := users st; addresses := a; running := running st;
     closed := closed st; gone := gone st; delivered := delivered st |}.

Definition with_closed (st : ChatServer) (c : gset sock) : ChatServer :=
  {| users := users st; addresses := addresses st; running := running st;
     closed := c; gone := gone st; delivered := delivered st |}.

Definition with_delivered (st : ChatServer) (d : list (sock * str)) : ChatServer :=
  {| users := users st; addresses := addresses st; running := running st;
     closed := closed st; gone := gone st; delivered := d |}.

(** [client.send] succeeds on a socket that is open at both ends. *)
Definition reachable (st : ChatServer) (client : sock) : bool :=
  bool_decide (client ∉ closed st) && bool_decide (client ∉ gone st).

(** [datetime.now()], as far as ["%H:%M:%S"] shows it. *)
Record datetime := { hour : N; minute : N; second : N }.

Definition two_digits (n : N) : str := [48 + n / 10; 48 + n mod 10].

(** [t.strftime("%H:%M:%S")] *)
Definition strftime_HMS (t : datetime) : str :=
  two_digits (hour t) ++ lit ":" ++ two_digits (minute t) ++ lit ":" ++ two_digits (second t).

(** What one [client.recv(2048).decode("utf8")] gives the worker:
    the decoded text (empty when the peer has closed), read at clock
    time [now], or an exception. *)
Inductive event :=
| Recv (data : str) (now : datetime)
| RecvError.

(** ** ChatServer methods *)

(** [_send_message]: the exception of a failed send is logged and
    dropped. *)
Definition _send_message (st : ChatServer) (client : sock) (message : str) : ChatServer :=
  if reachable st client
  then with_delivered st (delivered st ++ [(client, message)])
  else st.

(** [broadcast]: [exclude] defaults to [None]. *)
Definition broadcast (st : ChatServer) (message : str) (exclude : option sock) : ChatServer :=
  foldl (λ st client,
           if decide (Some client ≠ exclude)
           then _send_message st client message
           else st)
        st (Dict.keys (users st)).

(** [_remove_client] *)
Definition _remove_client (st : ChatServer) (client : sock) : ChatServer :=
  let st := if Dict.mem client (users st)
            then with_users st (Dict.del client (users st)) else st in
  let st := if decide (is_Some (addresses st !! client))
            then with_addresses st (delete client (addresses st)) else st in
  with_closed st ({[client]} ∪ closed st).

(** [_handle_quit] *)
Definition _handle_quit (st : ChatServer) (client : sock) (username : str) : ChatServer :=
  let st := _send_message st client (lit "Goodbye!") in
  let st := _remove_client st client in
  broadcast st (username ++ lit " has left the chat.") None.

(** [_show_online_users] *)
Definition _show_online_users (st : ChatServer) (client : sock) : ChatServer :=
  let online_users := join (lit ", ") (sorted (Dict.values (users st))) in
  _send_message st client (lit "Users online: " ++ online_users).

Definition help_text : str :=
  [10] ++ lit "Available commands:" ++ [10]
  ++ lit "/help - Show this help message" ++ [10]
  ++ lit "/online - Show online users" ++ [10]
  ++ lit "/quit - Leave the chat" ++ [10]
  ++ lit "/whisper <username> <message> - Send private message" ++ [10]
  ++ lit "        ".

(** [_show_help] *)
Definition _show_help (st : ChatServer) (client : sock) : ChatServer :=
  _send_message st client help_text.

(** [next((sock for sock, name in self.users.items() if name == recipient), None)] *)
Definition find_recipient (st : ChatServer) (recipient : str) : option sock :=
  fst <$> head (filter (λ kv, kv.2 = recipient) (users st)).

Definition whisper_usage : str := lit "Usage: /whisper <username> <message>".

(** [_handle_whisper]: the unpacking [_, recipient, *message_parts]
    raises [ValueError] on fewer than two tokens. *)
Definition _handle_whisper (st : ChatServer) (client : sock) (command sender : str) : ChatServer :=
  match split command with
  | _ :: recipient :: message_parts =>
      let message := join (lit " ") message_parts in
      match find_recipient st recipient with
      | Some recipient_socket =>
          let st := _send_message st recipient_socket
                      (lit "[PM from " ++ sender ++ lit "] " ++ message) in
          _send_message st client (lit "[PM to " ++ recipient ++ lit "] " ++ message)
      | None =>
          _send_message st client (lit "User " ++ recipient ++ lit " is not online.")
      end
  | _ => _send_message st client whisper_usage
  end.

Definition unknown_command : str :=
  lit "Unknown command. Type /help for available commands.".

(** The [commands] table of [_handle_command]. *)
Definition commands (client : sock) (command username : str)
  : list (str * (ChatServer → ChatServer)) :=
  [ (lit "/quit", λ st, _handle_quit st client username);
    (lit "/online", λ st, _show_online_users st client);
    (lit "/help", λ st, _show_help st client);
    (lit "/whisper", λ st, _handle_whisper st client command username) ].

(** [commands[cmd]] when [cmd in commands]. *)
Definition lookup_command {H : Type} (cmd : str) (table : list (str * H)) : option H :=
  snd <$> head (filter (λ e, e.1 = cmd) table).

(** [_handle_command]; [None] is the [IndexError] of [command.split()[0]]
    on a line with no token. *)
Definition _handle_command (st : ChatServer) (client : sock) (command username : str)
  : option ChatServer :=
  match split command with
  | [] => None
  | cmd :: _ =>
      match lookup_command cmd (commands client command username) with
      | Some handler => Some (handler st)
      | None => Some (_send_message st client unknown_command)
      end
  end.

Definition username_prompt : str := lit "Enter your username:".
Definition username_rejected : str := lit "Username already taken or invalid. Try again.".

(** The test of [_get_username]:
    [username and username not in self.users.values()]. *)
Definition username_ok (st : ChatServer) (username : str) : bool :=
  truthy username && bool_decide (username ∉ Dict.values (users st)).

(** How a call of [_get_username] ends, as far as the events read so
    far tell: it returns a name (the rest of the events is still to be
    read), an exception leaves it, or it waits in [recv]. *)
Inductive negotiation :=
| Returned (username : str) (rest : list event)
| Raised
| Waiting.

(** [_get_username].  [recv] on a socket the server has closed raises. *)
Fixpoint _get_username (st : ChatServer) (client : sock) (evs : list event)
  : ChatServer * negotiation :=
  let st := _send_message st client username_prompt in
  if decide (client ∈ closed st) then (st, Raised) else
  match evs with
  | [] => (st, Waiting)
  | RecvError :: _ => (st, Raised)
  | Recv data _ :: evs' =>
      let username := strip data in
      if username_ok st username then (st, Returned username evs')
      else _get_username (_send_message st client username_rejected) client evs'
  end.

(** How a worker's loop stands once the events are used up. *)
Inductive outcome :=
| Finished   (* the loop was left *)
| Blocked.   (* the worker waits in recv *)

(** The line the server relays for a chat message. *)
Definition chat_line (now : datetime) (username message : str) : str :=
  lit "[" ++ strftime_HMS now ++ lit "] " ++ username ++ lit ": " ++ message.

(** [_process_client_messages]: every exception inside the loop is
    logged and ends it. *)
Fixpoint _process_client_messages (st : ChatServer) (client : sock) (username : str)
    (evs : list event) : ChatServer * outcome :=
  if negb (running st) then (st, Finished) else
  if decide (client ∈ closed st) then (st, Finished) else
  match evs with
  | [] => (st, Blocked)
  | RecvError :: _ => (st, Finished)
  | Recv message now :: evs' =>
      if negb (truthy message) then (st, Finished)
      else if startswith message (lit "/") then
        match _handle_command st client message username with
        | Some st' => _process_client_messages st' client username evs'
        | None => (st, Finished)
        end
      else
        _process_client_messages (broadcast st (chat_line now username message) None)
                                 client username evs'
  end.

(** [_handle_client].  The address lookup sits before the [try]: a
    socket missing from [addresses] ends the worker at once. *)
Definition _handle_client (st : ChatServer) (client : sock) (evs : list event)
  : ChatServer * outcome :=
  match addresses st !! client with
  | None => (st, Finished)
  | Some _ =>
      match _get_username st client evs with
      | (st, Returned username rest) =>
          let st := with_users st (Dict.set client username (users st)) in
          let st := _send_message st client
                      (lit "Welcome " ++ username ++ lit "! Type /help for commands.") in
          let st := broadcast st (username ++ lit " has joined the chat!") None in
          match _process_client_messages st client username rest with
          | (st, Finished) => (_remove_client st client, Finished)
          | (st, Blocked) => (st, Blocked)
          end
      | (st, Raised) => (_remove_client st client, Finished)
      | (st, Waiting) => (st, Blocked)
      end
  end.

(** [_handle_connections], one turn: [accept] hands over a new socket
    and its address; its worker starts on its own. *)
Definition accept_connection (st : ChatServer) (client : sock) (addr : address) : ChatServer :=
  with_addresses st (<[client := addr]> (addresses st)).

(** ** The client's receive path (client.py) *)

Inductive msg_type := normal | private.

(** [_receive_messages]:
    ["private" if "whispered to you:" in message else "normal"] *)
Definition classify (message : str) : msg_type :=
  if contains message (lit "whispered to you:") then private else normal.

(** The line [_handle_whisper] sends to the recipient. *)
Definition pm_line (sender message : str) : str :=
  lit "[PM from " ++ sender ++ lit "] " ++ message.

(** ** Reading the state *)

(** The texts put on [client]'s socket, oldest first. *)
Definition inbox (st : ChatServer) (client : sock) : list str :=
  (filter (λ d, d.1 = client) (delivered st)).*2.

(** What was delivered between an earlier state and a later one. *)
Definition sent_since (st st' : ChatServer) : list (sock * str) :=
  drop (length (delivered st)) (delivered st').

Definition received_since (st st' : ChatServer) (client : sock) : list str :=
  (filter (λ d, d.1 = client) (sent_since st st')).*2.

(** A server with three registered clients, all reachable. *)
Definition alice : sock := 1%nat.
Definition bob : sock := 2%nat.
Definition carol : sock := 3%nat.

Definition localhost (port : N) : address := (lit "127.0.0.1", port).

Definition three_users : ChatServer :=
  {| users := [(alice, lit "alice"); (bob, lit "bob"); (carol, lit "carol")];
     addresses := {[ alice := localhost 50001; bob := localhost 50002; carol := localhost 50003 ]};
     running := true; closed := ∅; gone := ∅; delivered := [] |}.

Definition noon : datetime := {| hour := 12; minute := 0; second := 0 |}.

(** ** Workers side by side *)

(** Each connection has its own thread.  Between the test inside
    [_get_username] and the assignment [self.users[client] = username]
    in [_handle_client] the thread holds no lock, so another worker
    can run there.  A worker is followed through these two steps. *)
Inductive stage :=
| Negotiating                   (* inside _get_username *)
| Accepted (username : str)     (* _get_username has returned, users not yet written *)
| Registered (username : str).  (* self.users[client] = username has run *)

Record worker := {
  w_client : sock;
  w_stage : stage;
  w_input : list str   (* what the peer submits, in order *)
}.

(** One step of one worker: a turn of the loop of [_get_username], or
    the assignment that follows its return. *)
Definition worker_step (st : ChatServer) (w : worker) : ChatServer * worker :=
  match w_stage w with
  | Negotiating =>
      match w_input w with
      | [] => (st, w)
      | data :: rest =>
          let st := _send_message st (w_client w) username_prompt in
          let username := strip data in
          if username_ok st username
          then (st, {| w_client := w_client w; w_stage := Accepted username; w_input := rest |})
          else (_send_message st (w_client w) username_rejected,
                {| w_client := w_client w; w_stage := Negotiating; w_input := rest |})
      end
  | Accepted username =>
      (with_users st (Dict.set (w_client w) username (users st)),
       {| w_client := w_client w; w_stage := Registered username; w_input := w_input w |})
  | Registered _ => (st, w)
  end.

Record system := { server : ChatServer; workers : list worker }.

(** The scheduler lets worker number [i] take its next step. *)
Definition schedule_step (sys : system) (i : nat) : system :=
  match workers sys !! i with
  | None => sys
  | Some w =>
      let '(st, w') := worker_step (server sys) w in
      {| server := st; workers := <[i := w']> (workers sys) |}
  end.

Definition run (sys : system) (schedule : list nat) : system :=
  foldl schedule_step sys schedule.

Definition empty_server : ChatServer :=
  {| users := []; addresses := ∅; running := true; closed := ∅; gone := ∅; delivered := [] |}.

(** Two fresh connections that both ask for the name "bob". *)
Definition two_bobs : system :=
  {| server := accept_connection (accept_connection empty_server 4%nat (localhost 50004))
                                 5%nat (localhost 50005);
     workers := [ {| w_client := 4%nat; w_stage := Negotiating; w_input := [lit "bob"] |};
                  {| w_client := 5%nat; w_stage := Negotiating; w_input := [lit "bob"] |} ] |}.

(** ** States and notions used in the statements *)

(** The characters of [s] up to its first whitespace character. *)
Fixpoint leading_token (s : str) : str :=
  match s with
  | [] => []
  | c :: s' => if isspace c then [] else c :: leading_token s'
  end.

(** The deliveries of one [broadcast]. *)
Definition fanout (st : ChatServer) (message : str) (exclude : option sock) : list (sock * str) :=
  (λ client, (client, message)) <$>
    filter (λ client, Some client ≠ exclude ∧ reachable st client) (Dict.keys (users st)).

(** A state in which bob's peer is gone: sending to bob raises. *)
Definition bob_gone : ChatServer :=
  {| users := users three_users; addresses := addresses three_users;
     running := true; closed := ∅; gone := {[bob]}; delivered := [] |}.

(** The property of C1 as it is worded: the others get a line with the
    name and the text, the sender gets nothing. *)
Definition relayed_to_others_only (st : ChatServer) (client : sock)
    (username : str) (now : datetime) (message : str) : Prop :=
  let st' := (_process_client_messages st client username [Recv message now]).1 in
  (∀ other, other ∈ Dict.keys (users st) → other ≠ client →
     ∃ line, line ∈ received_since st st' other
             ∧ contains line username = true ∧ contains line message = true)
  ∧ received_since st st' client = [].

(** The server after [carol] has been removed from both dictionaries. *)
Definition carol_left : ChatServer := _remove_client three_users carol.

(** The line [_handle_whisper] sends back to the sender on a hit, and
    the one it sends on a miss. *)
Definition pm_echo (recipient message : str) : str :=
  lit "[PM to " ++ recipient ++ lit "] " ++ message.

Definition not_online (recipient : str) : str :=
  lit "User " ++ recipient ++ lit " is not online.".

(** A submission that the negotiation turns down: its stripped text is
    empty or is a name in [users]. *)
Definition turned_down (st : ChatServer) (ev : event) : Prop :=
  match ev with
  | Recv data _ => username_ok st (strip data) = false
  | RecvError => False
  end.

(** What the client is sent while [pre] is turned down: the prompt,
    then a rejection and a new prompt for each submission. *)
Definition prompts (client : sock) (pre : list event) : list (sock * str) :=
  (client, username_prompt)
  :: flat_map (λ _, [(client, username_rejected); (client, username_prompt)]) pre.

(** Alice and bob are registered; carol's connection has just been
    accepted. *)
Definition lobby : ChatServer :=
  accept_connection
    {| users := [(alice, lit "alice"); (bob, lit "bob")];
       addresses := {[ alice := localhost 50001; bob := localhost 50002 ]};
       running := true; closed := ∅; gone := ∅; delivered := [] |}
    carol (localhost 50003).

(** ** Shutdown *)

Definition with_running (st : ChatServer) (r : bool) : ChatServer :=
  {| users := users st; addresses := addresses st; running := r;
     closed := closed st; gone := gone st; delivered := delivered st |}.

(** [shutdown].  The listening socket is not part of the state; the
    loop walks a snapshot of the keys of [users]. *)
Definition shutdown (st : ChatServer) : ChatServer :=
  let st := with_running st false in
  foldl _remove_client st (Dict.keys (users st)).

(** ** Notions used in the further statements *)

(** What the worker of [client] may change: the entries of its own
    socket in the two dictionaries, whether its own socket is closed,
    and the log of deliveries, which only grows. *)
Definition own_footprint (client : sock) (st st' : ChatServer) : Prop :=
  Dict.del client (users st') = Dict.del client (users st)
  ∧ delete client (addresses st') = delete client (addresses st)
  ∧ running st' = running st
  ∧ gone st' = gone st
  ∧ closed st' ∖ {[client]} = closed st ∖ {[client]}
  ∧ delivered st `prefix_of` delivered st'.

(** A read that brings nothing but whitespace; the empty read of a
    closed connection is one. *)
Definition blank_read (ev : event) : Prop :=
  match ev with
  | Recv data _ => strip data = []
  | RecvError => False
  end.


(** The two lines of [_handle_client] for a new user. *)
Definition welcome_line (username : str) : str :=
  lit "Welcome " ++ username ++ lit "! Type /help for commands.".

Definition joined_line (username : str) : str :=
  username ++ lit " has joined the chat!".

(** [a <= b] on strings, as a relation. *)
Definition str_le (a b : str) : Prop := leb a b = true.

(** ** The client's history and connection (client.py) *)

(** [Message]; [type] is one of "normal", "system", "private", "error". *)
Record Message := {
  content : str;
  sender : str;
  timestamp : datetime;
  type : str;
  recipient : option str
}.

(** The part of [ChatClient] that the history uses; [save_history] is
    the truth value of [preferences.get("save_history", True)]. *)
Record ChatClient := {
  username : option str;
  message_history : list Message;
  max_history : Z;
  save_history : bool
}.

(** [_create_message]: [self.username or "Unknown"] is the sender. *)
Definition _create_message (c : ChatClient) (now : datetime) (text msg_kind : str)
    (to : option str) : Message :=
  {| content := text;
     sender := match username c with
               | Some u => if truthy u then u else lit "Unknown"
               | None => lit "Unknown"
               end;
     timestamp := now; type := msg_kind; recipient := to |}.

(** [while len(history) > max_history: history.pop(0)]; [None] is the
    [IndexError] of [pop] on an empty list. *)
Fixpoint trim_history (limit : Z) (history : list Message) : option (list Message) :=
  if (limit <? Z.of_nat (length history))%Z then
    match history with
    | [] => None
    | _ :: history' => trim_history limit history'
    end
  else Some history.

(** [_add_to_history] *)
Definition _add_to_history (c : ChatClient) (message : Message) : option ChatClient :=
  if save_history c then
    history ← trim_history (max_history c) (message_history c ++ [message]);
    Some {| username := username c; message_history := history;
            max_history := max_history c; save_history := save_history c |}
  else Some c.

(** The name [_receive_messages] gives a message type. *)
Definition type_name (t : msg_type) : str :=
  match t with
  | normal => lit "normal"
  | private => lit "private"
  end.

(** [_receive_messages], one received text that is not empty: the
    message is typed, created and added to the history (printing is
    left out). *)
Definition receive_one (c : ChatClient) (now : datetime) (text : str) : option ChatClient :=
  _add_to_history c (_create_message c now text (type_name (classify text)) None).

(** What one [socket.connect] does. *)
Inductive attempt :=
| Connects
| TimesOut      (* socket.timeout *)
| Fails.        (* any other exception *)

(** How [connect] ends: its return value, the number of connection
    attempts made and the seconds slept between them. *)
Record connection_result := {
  connected : bool;
  attempts : nat;
  slept : nat
}.

(** The loop of [connect], entered with [max_retries - retry_count =
    remaining]; [tries retry_count] is what the attempt made at that
    count does. *)
Fixpoint connect_loop (tries : nat → attempt) (retry_count remaining : nat)
  : connection_result :=
  match remaining with
  | O => {| connected := false; attempts := 0; slept := 0 |}
  | S remaining' =>
      match tries retry_count with
      | Connects => {| connected := true; attempts := 1; slept := 0 |}
      | Fails => {| connected := false; attempts := 1; slept := 0 |}
      | TimesOut =>
          let r := connect_loop tries (S retry_count) remaining' in
          {| connected := connected r;
             attempts := S (attempts r);
             slept := (match remaining' with O => 0 | S _ => 2 end + slept r)%nat |}
      end
  end.

(** [connect]: [max_retries = 3]. *)
Definition connect (tries : nat → attempt) : connection_result :=
  connect_loop tries 0 3.

(** ** What the client sends (client.py) *)

(** [str.lower] is the library's; the client's dispatch is modelled
    over it. *)
Section ClientInput.
Variable lower : str → str.

(** The keys of [command_handlers], each with the largest number of
    arguments its handler takes (none of them requires one). *)
Definition command_handlers : list (str * nat) :=
  [ (lit "/clear", 0%nat); (lit "/help", 0%nat); (lit "/history", 0%nat);
    (lit "/version", 0%nat); (lit "/preferences", 0%nat); (lit "/status", 0%nat);
    (lit "/theme", 1%nat); (lit "/export", 1%nat); (lit "/filter", 1%nat) ].

(** [_handle_commands]: [Some true] and [Some false] are its return
    values; [None] is an exception, the [IndexError] of [parts[0]] or
    the [TypeError] of a handler called with too many arguments. *)
Definition _handle_commands (message : str) : option bool :=
  match split message with
  | [] => None
  | part :: args =>
      match lookup_command (lower part) command_handlers with
      | Some most => if bool_decide (length args ≤ most)%nat then Some true else None
      | None => Some false
      end
  end.

(** What one turn of the loop of [_send_messages] does with the line
    read from the keyboard. *)
Inductive input_result :=
| Quits                   (* sends "/quit", shuts down and exits *)
| Ignored                 (* an empty line: nothing is sent *)
| HandledLocally          (* a client command: nothing is sent *)
| Sent (message : str)    (* the line goes to the server *)
| LoopEnds.               (* an exception ends the loop *)

(** [_send_messages], one turn. *)
Definition send_step (line : str) : input_result :=
  let message := strip line in
  if bool_decide (lower message ∈ [lit "bye"; lit "quit"]) then Quits
  else if negb (truthy message) then Ignored
  else if startswith message (lit "/") then
    match _handle_commands message with
    | Some true => HandledLocally
    | Some false => Sent message
    | None => LoopEnds
    end
  else Sent message.

End ClientInput.

(** Lower case for letters A to Z; it is what [str.lower] does on a
    string of ASCII characters. *)
Definition ascii_lower (s : str) : str :=
  (λ c, if (65 <=? c) && (c <=? 90) then c + 32 else c) <$> s.


(** * Properties *)

(** ** Strings *)

Lemma lstrip_head_not_space c s : isspace c = false → lstrip (c :: s) = c :: s.
Proof. intros H. simpl. by rewrite H. Qed.

Lemma lstrip_cases s :
  lstrip s = [] ∨ ∃ c r, lstrip s = c :: r ∧ isspace c = false.
Proof.
  induction s as [|c s IH]; [by left|].
  simpl. destruct (isspace c) eqn:E; [exact IH|].
  right. by exists c, s.
Qed.

Lemma lstrip_idemp s : lstrip (lstrip s) = lstrip s.
Proof.
  destruct (lstrip_cases s) as [->|(c & r & -> & E)]; [done|].
  by apply lstrip_head_not_space.
Qed.

(** Dropping leading whitespace changes nothing at the far end. *)
Lemma lstrip_snoc_not_space s c :
  isspace c = false → lstrip (s ++ [c]) = lstrip s ++ [c] ∧ lstrip (s ++ [c]) ≠ [].
Proof.
  intros E. induction s as [|d s [IH1 IH2]]; simpl.
  - by rewrite E.
  - destruct (isspace d); [done|]. split; [done|discriminate].
Qed.

Lemma rstrip_head_not_space c s :
  isspace c = false → ∃ r, rstrip (c :: s) = c :: r.
Proof.
  intros E. unfold rstrip. simpl.
  destruct (lstrip_snoc_not_space (rev s) c E) as [-> _].
  rewrite rev_app_distr. simpl. by eexists.
Qed.

Lemma rstrip_idemp s : rstrip (rstrip s) = rstrip s.
Proof. unfold rstrip. by rewrite rev_involutive, lstrip_idemp. Qed.

Lemma strip_cases s :
  strip s = [] ∨ ∃ c r, strip s = c :: r ∧ isspace c = false.
Proof.
  unfold strip. destruct (lstrip_cases s) as [->|(c & r & -> & E)]; [by left|].
  right. destruct (rstrip_head_not_space c r E) as [r' ->]. by exists c, r'.
Qed.

Lemma strip_idemp s : strip (strip s) = strip s.
Proof.
  destruct (strip_cases s) as [->|(c & r & Hs & E)]; [done|].
  rewrite Hs. unfold strip at 1. rewrite lstrip_head_not_space by done.
  rewrite <- Hs. unfold strip. apply rstrip_idemp.
Qed.

Lemma split_from_open t s :
  ∃ more, split_from (Some t) s = (rev t ++ leading_token s) :: more.
Proof.
  revert t. induction s as [|c s IH]; intros t; simpl.
  - exists []. by rewrite app_nil_r.
  - destruct (isspace c).
    + eexists. by rewrite app_nil_r.
    + destruct (IH (c :: t)) as [more Hmore]. exists more.
      etrans; [exact Hmore|]. simpl. by rewrite <- app_assoc.
Qed.

(** A line that opens with a character other than whitespace has a
    first token, and that token is its leading run. *)
Lemma split_first_token c s :
  isspace c = false → ∃ more, split (c :: s) = leading_token (c :: s) :: more.
Proof.
  intros E. unfold split. simpl. rewrite E.
  destruct (split_from_open [c] s) as [more Hmore]. exists more. exact Hmore.
Qed.

Lemma startswith_slash s :
  startswith s (lit "/") = true → ∃ r, s = 47 :: r.
Proof.
  destruct s as [|c r]; [done|].
  change (startswith (c :: r) (lit "/")) with ((47 =? c) && true).
  rewrite andb_true_r. intros H%N.eqb_eq. exists r. by subst.
Qed.

Lemma startswith_app p s : startswith (p ++ s) p = true.
Proof.
  induction p as [|a p IH]; [done|].
  change (startswith ((a :: p) ++ s) (a :: p)) with ((a =? a) && startswith (p ++ s) p).
  by rewrite N.eqb_refl, IH.
Qed.

Lemma contains_startswith s p : startswith s p = true → contains s p = true.
Proof. intros H. destruct s; unfold contains; fold contains; by rewrite H. Qed.

Lemma contains_app_r a p s : contains (a ++ p ++ s) p = true.
Proof.
  induction a as [|x a IH].
  - apply contains_startswith. exact (startswith_app p s).
  - change (contains ((x :: a) ++ p ++ s) p)
      with (startswith ((x :: a) ++ p ++ s) p || contains (a ++ p ++ s) p).
    rewrite IH. apply orb_true_r.
Qed.

(** ** Sending *)

Lemma with_delivered_same st : with_delivered st (delivered st) = st.
Proof. by destruct st. Qed.

Lemma send_message_spec st client message :
  _send_message st client message =
  with_delivered st (delivered st ++ if reachable st client then [(client, message)] else []).
Proof.
  unfold _send_message. destruct (reachable st client); [done|].
  by rewrite app_nil_r, with_delivered_same.
Qed.

Lemma reachable_with_delivered st d c : reachable (with_delivered st d) c = reachable st c.
Proof. done. Qed.

Lemma broadcast_fold st message exclude (l : list sock) :
  foldl (λ st client,
           if decide (Some client ≠ exclude)
           then _send_message st client message
           else st) st l
  = with_delivered st
      (delivered st ++
         ((λ client, (client, message)) <$>
            filter (λ client, Some client ≠ exclude ∧ reachable st client) l)).
Proof.
  revert st. induction l as [|c l IH]; intros st.
  - simpl. by rewrite app_nil_r, with_delivered_same.
  - simpl foldl. rewrite filter_cons.
    destruct (decide (Some c ≠ exclude)) as [Hne|Heq].
    + rewrite IH, send_message_spec. destruct (reachable st c) eqn:E.
      * rewrite decide_True by (split; done).
        unfold with_delivered; simpl. rewrite <- app_assoc. done.
      * rewrite decide_False by (intros [_ []]).
        unfold with_delivered; simpl. rewrite app_nil_r. done.
    + rewrite IH. rewrite decide_False by (intros [? _]; done). done.
Qed.

Lemma broadcast_spec st message exclude :
  broadcast st message exclude = with_delivered st (delivered st ++ fanout st message exclude).
Proof. apply broadcast_fold. Qed.

Lemma sent_since_with_delivered st more :
  sent_since st (with_delivered st (delivered st ++ more)) = more.
Proof. unfold sent_since. simpl. by rewrite drop_app_length. Qed.

(** Out of one message per key, a socket gets one copy if it is among
    the keys and none otherwise. *)
Lemma copies_for (c : sock) (m : str) (l : list sock) :
  NoDup l →
  (filter (λ d : sock * str, d.1 = c) ((λ k, (k, m)) <$> l)).*2
  = if bool_decide (c ∈ l) then [m] else [].
Proof.
  induction 1 as [|k l Hk Hl IH]; [done|].
  rewrite fmap_cons, filter_cons.
  destruct (decide (k = c)) as [->|Hne].
  - rewrite decide_True by done.
    rewrite bool_decide_eq_true_2 by left.
    rewrite bool_decide_eq_false_2 in IH by done.
    rewrite fmap_cons, IH. done.
  - rewrite decide_False by done. rewrite IH.
    rewrite (bool_decide_ext (c ∈ k :: l) (c ∈ l)); [done|].
    rewrite elem_of_cons. split; [intros [->|?]; done | by right].
Qed.

Lemma received_from_fanout st message exclude c :
  Dict.wf (users st) →
  received_since st (with_delivered st (delivered st ++ fanout st message exclude)) c
  = if bool_decide (c ∈ Dict.keys (users st) ∧ Some c ≠ exclude ∧ reachable st c)
    then [message] else [].
Proof.
  intros Hwf. unfold received_since, fanout.
  rewrite sent_since_with_delivered, copies_for by by apply NoDup_filter.
  rewrite (bool_decide_ext _ (c ∈ Dict.keys (users st) ∧ Some c ≠ exclude ∧ reachable st c));
    [done|].
  rewrite list_elem_of_filter. tauto.
Qed.

(** ** Broadcast *)

(** C8: [broadcast] hands the text once to every socket that is
    registered when it is called, apart from the excluded one; a
    recipient whose send fails gets nothing and the failure changes
    nothing for the others; the dictionaries are left as they were. *)
Theorem broadcast_reaches_every_registered st message exclude c :
  Dict.wf (users st) →
  received_since st (broadcast st message exclude) c
  = (if bool_decide (c ∈ Dict.keys (users st) ∧ Some c ≠ exclude ∧ reachable st c)
     then [message] else [])
  ∧ users (broadcast st message exclude) = users st
  ∧ addresses (broadcast st message exclude) = addresses st.
Proof.
  intros Hwf. rewrite broadcast_spec. split; [|done].
  by apply received_from_fanout.
Qed.

Lemma broadcast_reaches_every_registered_witness :
  Dict.wf (users bob_gone)
  ∧ received_since bob_gone (broadcast bob_gone (lit "hi") (Some alice)) carol = [lit "hi"]
  ∧ received_since bob_gone (broadcast bob_gone (lit "hi") (Some alice)) bob = []
  ∧ received_since bob_gone (broadcast bob_gone (lit "hi") (Some alice)) alice = [].
Proof.
  assert (Hwf : Dict.wf (users bob_gone)).
  { apply (bool_decide_unpack _). vm_compute. exact I. }
  split; [exact Hwf|].
  split; [|split].
  - exact (proj1 (broadcast_reaches_every_registered bob_gone (lit "hi") (Some alice) carol Hwf)).
  - exact (proj1 (broadcast_reaches_every_registered bob_gone (lit "hi") (Some alice) bob Hwf)).
  - exact (proj1 (broadcast_reaches_every_registered bob_gone (lit "hi") (Some alice) alice Hwf)).
Defined.

(** ** Chat lines *)

(** Alice's "hello" comes back to alice: [broadcast] is called without
    [exclude]. *)
Lemma chat_line_comes_back_to_sender :
  received_since three_users
    (_process_client_messages three_users alice (lit "alice") [Recv (lit "hello") noon]).1
    alice = [lit "[12:00:00] alice: hello"]
  ∧ ¬ relayed_to_others_only three_users alice (lit "alice") noon (lit "hello").
Proof.
  split; [by vm_compute|].
  intros [_ H]. vm_compute in H. discriminate H.
Qed.

Lemma contains_app_end a p : contains (a ++ p) p = true.
Proof. pose proof (contains_app_r a p []) as H. by rewrite app_nil_r in H. Qed.

Lemma process_at_rest st client username :
  running st = true → client ∉ closed st →
  _process_client_messages st client username [] = (st, Blocked).
Proof.
  intros Hrun Hopen. unfold _process_client_messages.
  rewrite Hrun. by rewrite decide_False by done.
Qed.

Lemma process_one_message st client username message now evs :
  running st = true → client ∉ closed st → message ≠ [] →
  _process_client_messages st client username (Recv message now :: evs)
  = if startswith message (lit "/")
    then match _handle_command st client message username with
         | Some st' => _process_client_messages st' client username evs
         | None => (st, Finished)
         end
    else _process_client_messages (broadcast st (chat_line now username message) None)
           client username evs.
Proof.
  intros Hrun Hopen Hne.
  destruct message as [|m0 message]; [done|].
  unfold _process_client_messages at 1; fold _process_client_messages.
  rewrite Hrun. by rewrite decide_False by done.
Qed.

(** C1, amended: a plain chat line of a registered client is handed
    once, as [[HH:MM:SS] <username>: <text>], to every registered
    socket that can be sent to, the sender's own socket included; the
    line holds the sender's name and the text. *)
Theorem chat_line_reaches_every_registered st client username now message c :
  running st = true →
  client ∉ closed st →
  message ≠ [] →
  startswith message (lit "/") = false →
  Dict.wf (users st) →
  ∃ st', _process_client_messages st client username [Recv message now] = (st', Blocked)
    ∧ received_since st st' c
      = (if bool_decide (c ∈ Dict.keys (users st) ∧ reachable st c)
         then [chat_line now username message] else [])
    ∧ contains (chat_line now username message) username = true
    ∧ contains (chat_line now username message) message = true.
Proof.
  intros Hrun Hopen Hne Hplain Hwf.
  exists (broadcast st (chat_line now username message) None).
  split; [|split; [|split]].
  - rewrite process_one_message, Hplain by done.
    apply process_at_rest; by rewrite broadcast_spec.
  - rewrite broadcast_spec, received_from_fanout by done.
    rewrite (bool_decide_ext _ (c ∈ Dict.keys (users st) ∧ reachable st c)); [done|].
    split; [intros (? & _ & ?); done | intros [? ?]; done].
  - unfold chat_line.
    rewrite !(assoc_L (++) _ _ (username ++ _)). apply contains_app_r.
  - unfold chat_line.
    rewrite !app_assoc. apply contains_app_end.
Qed.

Lemma chat_line_reaches_every_registered_witness :
  ∃ st', _process_client_messages bob_gone alice (lit "alice") [Recv (lit "hello") noon]
         = (st', Blocked)
    ∧ received_since bob_gone st' alice
      = (if bool_decide (alice ∈ Dict.keys (users bob_gone) ∧ reachable bob_gone alice)
         then [chat_line noon (lit "alice") (lit "hello")] else [])
    ∧ contains (chat_line noon (lit "alice") (lit "hello")) (lit "alice") = true
    ∧ contains (chat_line noon (lit "alice") (lit "hello")) (lit "hello") = true.
Proof.
  apply (chat_line_reaches_every_registered bob_gone alice (lit "alice") noon (lit "hello") alice).
  - reflexivity.
  - apply (bool_decide_unpack _). vm_compute. exact I.
  - discriminate.
  - reflexivity.
  - apply (bool_decide_unpack _). vm_compute. exact I.
Defined.

(** ** Removing a client *)

Lemma del_idemp {V} (k : sock) (d : Dict.dict V) :
  Dict.del k (Dict.del k d) = Dict.del k d.
Proof. unfold Dict.del. apply list_filter_filter_l. tauto. Qed.

Lemma not_mem_del {V} (k : sock) (d : Dict.dict V) : Dict.mem k (Dict.del k d) = false.
Proof.
  unfold Dict.mem, Dict.keys, Dict.del. apply bool_decide_eq_false_2.
  intros ((k' & v) & -> & Hin%list_elem_of_filter)%list_elem_of_fmap.
  by destruct Hin.
Qed.

Lemma del_absent {V} (k : sock) (d : Dict.dict V) :
  k ∉ Dict.keys d → Dict.del k d = d.
Proof.
  unfold Dict.del, Dict.keys. induction d as [|[k' v] d IH]; [done|].
  rewrite fmap_cons, not_elem_of_cons. intros [Hne Hd].
  rewrite filter_cons, decide_True by (simpl in *; congruence).
  by rewrite IH.
Qed.

(** What [_remove_client] does to each part of the state. *)
Lemma remove_client_spec st client :
  _remove_client st client =
  {| users := Dict.del client (users st);
     addresses := delete client (addresses st);
     running := running st;
     closed := {[client]} ∪ closed st;
     gone := gone st;
     delivered := delivered st |}.
Proof.
  destruct st as [u a r c g d]. unfold _remove_client, Dict.mem. simpl.
  destruct (bool_decide_reflect (client ∈ Dict.keys u)) as [Hin|Hout]; simpl;
    destruct (decide (is_Some (a !! client))) as [Hs|Hn];
    unfold with_closed, with_users, with_addresses; simpl; f_equal;
    try (by rewrite del_absent);
    try (rewrite delete_id; [done|by apply eq_None_not_Some]).
Qed.

(** C7: removing a client twice leaves the same [users] and
    [addresses] (the same state altogether) as removing it once, and
    removing a client that is in neither dictionary changes neither. *)
Theorem remove_client_idempotent st client :
  _remove_client (_remove_client st client) client = _remove_client st client
  ∧ (client ∉ Dict.keys (users st) → addresses st !! client = None →
     users (_remove_client st client) = users st
     ∧ addresses (_remove_client st client) = addresses st).
Proof.
  split.
  - rewrite !remove_client_spec. simpl.
    rewrite del_idemp, delete_delete_eq. f_equal.
    by rewrite (assoc_L (∪)), union_idemp_L.
  - intros Hu Ha. rewrite remove_client_spec. simpl.
    split; [by apply del_absent|by apply delete_id].
Qed.

Lemma remove_client_idempotent_witness :
  _remove_client (_remove_client carol_left carol) carol = _remove_client carol_left carol
  ∧ users (_remove_client carol_left carol) = users carol_left
  ∧ addresses (_remove_client carol_left carol) = addresses carol_left.
Proof.
  destruct (remove_client_idempotent carol_left carol) as [Htwice Habsent].
  split; [exact Htwice|].
  apply Habsent.
  - apply (bool_decide_unpack _). vm_compute. exact I.
  - reflexivity.
Defined.

(** ** Whispers *)

Lemma find_recipient_none st recipient :
  recipient ∉ Dict.values (users st) → find_recipient st recipient = None.
Proof.
  unfold find_recipient, Dict.values. intros Hout.
  destruct (filter _ (users st)) as [|[k v] l] eqn:E; [done|].
  exfalso. apply Hout.
  assert (Hin : (k, v) ∈ filter (λ kv : sock * str, kv.2 = recipient) (users st))
    by (rewrite E; left).
  apply list_elem_of_filter in Hin as [Hv Hin]. simpl in Hv. subst v.
  apply list_elem_of_fmap. by exists (k, recipient).
Qed.

Lemma find_recipient_some st recipient :
  recipient ∈ Dict.values (users st) →
  ∃ rs, find_recipient st recipient = Some rs ∧ (rs, recipient) ∈ users st.
Proof.
  unfold find_recipient, Dict.values.
  intros ([k v] & Hv & Hin)%list_elem_of_fmap. simpl in Hv. subst v.
  destruct (filter (λ kv : sock * str, kv.2 = recipient) (users st)) as [|[k' v'] l] eqn:E.
  - assert (Hk : (k, recipient) ∈ filter (λ kv : sock * str, kv.2 = recipient) (users st))
      by (by apply list_elem_of_filter).
    rewrite E in Hk. by apply not_elem_of_nil in Hk.
  - exists k'. split; [done|].
    assert (Hk : (k', v') ∈ filter (λ kv : sock * str, kv.2 = recipient) (users st))
      by (rewrite E; left).
    apply list_elem_of_filter in Hk as [Hv Hk]. simpl in Hv. by subst v'.
Qed.

Lemma with_delivered_twice st d1 d2 :
  with_delivered (with_delivered st d1) d2 = with_delivered st d2.
Proof. done. Qed.

(** C5: a whisper with a recipient token: if the name is registered,
    the first socket registered under exactly that name is sent one
    [[PM from <sender>]] line and the sender one [[PM to <name>]] line,
    and nothing else is sent; if the name is not registered, the
    sender is sent the one not-online notice and nothing else is
    sent.  (Sends are to sockets that can be sent to.) *)
Theorem whisper_delivery st client command sender tok recipient parts :
  split command = tok :: recipient :: parts →
  reachable st client →
  (∀ c, (c, recipient) ∈ users st → reachable st c) →
  (recipient ∈ Dict.values (users st) →
     ∃ rs, find_recipient st recipient = Some rs
       ∧ (rs, recipient) ∈ users st
       ∧ sent_since st (_handle_whisper st client command sender)
         = [(rs, pm_line sender (join (lit " ") parts));
            (client, pm_echo recipient (join (lit " ") parts))])
  ∧ (recipient ∉ Dict.values (users st) →
     sent_since st (_handle_whisper st client command sender)
     = [(client, not_online recipient)]).
Proof.
  intros Hsplit Hclient Hreach. unfold _handle_whisper. rewrite Hsplit. split.
  - intros (rs & Hfind & Hin)%find_recipient_some. exists rs.
    split; [done|]. split; [done|]. rewrite Hfind.
    rewrite !send_message_spec. rewrite reachable_with_delivered.
    destruct (reachable st rs) eqn:Ers; [|by specialize (Hreach rs Hin); rewrite Ers in Hreach].
    destruct (reachable st client); [|done].
    rewrite with_delivered_twice.
    change (delivered (with_delivered st ?d)) with d. rewrite <- app_assoc.
    by rewrite sent_since_with_delivered.
  - intros Hout. rewrite find_recipient_none by done.
    rewrite send_message_spec. destruct (reachable st client); [|done].
    by rewrite sent_since_with_delivered.
Qed.

Lemma whisper_delivery_witness :
  (lit "carol" ∈ Dict.values (users three_users) →
     ∃ rs, find_recipient three_users (lit "carol") = Some rs
       ∧ (rs, lit "carol") ∈ users three_users
       ∧ sent_since three_users
           (_handle_whisper three_users bob (lit "/whisper carol hi") (lit "bob"))
         = [(rs, pm_line (lit "bob") (join (lit " ") [lit "hi"]));
            (bob, pm_echo (lit "carol") (join (lit " ") [lit "hi"]))])
  ∧ (lit "carol" ∉ Dict.values (users three_users) →
     sent_since three_users
       (_handle_whisper three_users bob (lit "/whisper carol hi") (lit "bob"))
     = [(bob, not_online (lit "carol"))]).
Proof.
  apply (whisper_delivery three_users bob (lit "/whisper carol hi") (lit "bob")
           (lit "/whisper") (lit "carol") [lit "hi"]).
  - reflexivity.
  - vm_compute. exact I.
  - intros c _. unfold reachable. cbn [closed gone three_users].
    rewrite !bool_decide_eq_true_2 by apply not_elem_of_empty. exact I.
Defined.

(** A whisper with no recipient token is answered with the usage
    line, to the sender only. *)
Lemma whisper_without_recipient st client command sender tok :
  split command = [tok] →
  _handle_whisper st client command sender = _send_message st client whisper_usage.
Proof. intros H. unfold _handle_whisper. by rewrite H. Qed.

(** C4 on "/whisper bob", sent by alice while bob is registered: bob is
    sent a private line with an empty text and alice its echo; the
    usage line is not sent. *)
Theorem whisper_without_message_is_delivered :
  split (lit "/whisper bob") = [lit "/whisper"; lit "bob"]
  ∧ sent_since three_users
      (_process_client_messages three_users alice (lit "alice")
         [Recv (lit "/whisper bob") noon]).1
    = [(bob, lit "[PM from alice] "); (alice, lit "[PM to bob] ")]
  ∧ (alice, whisper_usage)
    ∉ delivered (_process_client_messages three_users alice (lit "alice")
                   [Recv (lit "/whisper bob") noon]).1.
Proof.
  split; [reflexivity|]. split; [by vm_compute|].
  apply (bool_decide_unpack _). vm_compute. exact I.
Qed.

(** C9 on alice's "/whisper bob hi": the line bob's socket receives is
    the server's [[PM from alice] hi], and the client's receive path
    gives it the type [normal]. *)
Theorem server_whisper_classified_normal :
  received_since three_users
    (_process_client_messages three_users alice (lit "alice")
       [Recv (lit "/whisper bob hi") noon]).1 bob
  = [pm_line (lit "alice") (lit "hi")]
  ∧ pm_line (lit "alice") (lit "hi") = lit "[PM from alice] hi"
  ∧ classify (pm_line (lit "alice") (lit "hi")) = normal.
Proof. split; [by vm_compute|]. split; by vm_compute. Qed.

(** ** Username negotiation *)

Lemma get_username_unfold st client evs :
  _get_username st client evs =
  let st1 := _send_message st client username_prompt in
  if decide (client ∈ closed st1) then (st1, Raised) else
  match evs with
  | [] => (st1, Waiting)
  | RecvError :: _ => (st1, Raised)
  | Recv data _ :: evs' =>
      if username_ok st1 (strip data) then (st1, Returned (strip data) evs')
      else _get_username (_send_message st1 client username_rejected) client evs'
  end.
Proof. by destruct evs. Qed.

(** A name that passes the test of [_get_username] is not blank and
    not in use. *)
Lemma username_ok_sound st username :
  username_ok st username = true →
  username ≠ [] ∧ username ∉ Dict.values (users st).
Proof.
  unfold username_ok. intros [Ht Hfree]%andb_true_iff. split.
  - by destruct username.
  - by apply bool_decide_eq_true_1 in Hfree.
Qed.

(** C10: [_get_username] returns the stripped text of the first
    submission that is neither blank nor a name in use: the name is
    non-empty, has no surrounding whitespace left, and is not among
    [users.values()]; every submission before it was turned down, with
    the rejection line and a new prompt.  Until such a submission
    comes the call does not return: it waits, or an exception of
    [recv] leaves it. *)
Theorem get_username_nonblank st client evs :
  match _get_username st client evs with
  | (st', Returned username rest) =>
      username ≠ [] ∧ strip username = username
      ∧ (username ∉ Dict.values (users st))
      ∧ users st' = users st
      ∧ ∃ pre data now,
          evs = pre ++ Recv data now :: rest
          ∧ username = strip data
          ∧ Forall (turned_down st) pre
          ∧ delivered st' = delivered st ++ (if reachable st client then prompts client pre else [])
  | (_, Raised) =>
      client ∈ closed st
      ∨ ∃ pre rest, evs = pre ++ RecvError :: rest ∧ Forall (turned_down st) pre
  | (_, Waiting) => Forall (turned_down st) evs
  end.
Proof.
  revert st. induction evs as [|ev evs IH]; intros st; rewrite get_username_unfold; cbv zeta;
    rewrite !send_message_spec.
  - destruct (decide _); [by left|done].
  - destruct (decide _) as [Hc|Hc]; [by left|].
    destruct ev as [data now|]; [|right; by exists [], evs].
    destruct (username_ok _ (strip data)) eqn:Hok.
    + destruct (username_ok_sound _ _ Hok) as [Hne Hfree].
      split; [done|]. split; [apply strip_idemp|]. split; [done|]. split; [done|].
      exists [], data, now. split; [done|]. split; [done|]. split; [done|].
      simpl. by destruct (reachable st client).
    + rewrite with_delivered_twice, reachable_with_delivered.
      match goal with |- context [_get_username ?st2 client evs] => specialize (IH st2) end.
      destruct (_get_username _ client evs) as [st' [username rest| |]].
      * destruct IH as (Hne & Hstrip & Hfree & Husers & pre & d & n & -> & -> & Hpre & Hdel).
        split; [done|]. split; [done|]. split; [done|]. split; [done|].
        exists (Recv data now :: pre), d, n.
        split; [done|]. split; [done|]. split; [by constructor|].
        rewrite Hdel. simpl. rewrite reachable_with_delivered.
        destruct (reachable st client); simpl; rewrite <- !app_assoc; done.
      * destruct IH as [Hcl|(pre & rest & -> & Hpre)]; [by left|].
        right. exists (Recv data now :: pre), rest. split; [done|]. by constructor.
      * by constructor.
Qed.

(** ** Commands *)

(** "/QUIT" is not in the table: alice is told the command is unknown
    and stays registered, whereas "/quit" removes her. *)
Lemma uppercase_quit_is_unknown :
  _handle_command three_users alice (lit "/QUIT") (lit "alice")
  = Some (_send_message three_users alice unknown_command)
  ∧ _handle_command three_users alice (lit "/quit") (lit "alice")
    = Some (_handle_quit three_users alice (lit "alice"))
  ∧ _handle_command three_users alice (lit "/QUIT") (lit "alice")
    ≠ _handle_command three_users alice (lit "/quit") (lit "alice").
Proof.
  split; [reflexivity|]. split; [reflexivity|].
  intros H. apply (f_equal (fmap (λ st, length (users st)))) in H.
  vm_compute in H. discriminate H.
Qed.

(** C3, amended: on a line that begins with '/', the dispatcher takes
    the characters up to the first whitespace as the command and
    compares them exactly, letter case included, with "/quit",
    "/online", "/help" and "/whisper"; any other token, such as
    "/QUIT", gets the unknown-command reply, sent to the sender. *)
Theorem command_token_matched_exactly st client command username :
  startswith command (lit "/") = true →
  _handle_command st client command username =
  Some (if decide (leading_token command = lit "/quit")
        then _handle_quit st client username
        else if decide (leading_token command = lit "/online")
        then _show_online_users st client
        else if decide (leading_token command = lit "/help")
        then _show_help st client
        else if decide (leading_token command = lit "/whisper")
        then _handle_whisper st client command username
        else _send_message st client unknown_command).
Proof.
  intros [r ->]%startswith_slash.
  destruct (split_first_token 47 r eq_refl) as [more Hsplit].
  unfold _handle_command. rewrite Hsplit.
  generalize (leading_token (47 :: r)). intros cmd.
  unfold lookup_command, commands.
  repeat (rewrite filter_cons; simpl fst;
          destruct (decide (_ = cmd)) as [<-|?]; [reflexivity|]).
  rewrite filter_nil.
  repeat match goal with
         | |- context [decide (cmd = ?x)] =>
             destruct (decide (cmd = x)) as [Heq|_];
             [exfalso; symmetry in Heq; contradiction|]
         end.
  reflexivity.
Qed.

Lemma command_token_matched_exactly_witness :
  _handle_command three_users alice (lit "/Whisper bob hi") (lit "alice")
  = Some (_send_message three_users alice unknown_command).
Proof.
  exact (command_token_matched_exactly three_users alice (lit "/Whisper bob hi") (lit "alice")
           eq_refl).
Defined.

(** ** Leaving *)

Lemma keys_del {V} (k : sock) (d : Dict.dict V) :
  Dict.keys (Dict.del k d) = filter (λ k', k' ≠ k) (Dict.keys d).
Proof.
  unfold Dict.keys, Dict.del. induction d as [|[k' v] d IH]; [done|].
  rewrite fmap_cons, !filter_cons. cbn [fst].
  destruct (decide (k' ≠ k)); by rewrite ?fmap_cons, IH.
Qed.

Lemma quit_spec st client username :
  _handle_quit st client username =
  let st2 := _remove_client (_send_message st client (lit "Goodbye!")) client in
  with_delivered st2
    (delivered st
     ++ (if reachable st client then [(client, lit "Goodbye!")] else [])
     ++ fanout st2 (username ++ lit " has left the chat.") None).
Proof.
  unfold _handle_quit. cbv zeta. rewrite broadcast_spec. f_equal.
  rewrite remove_client_spec, send_message_spec. cbn [delivered with_delivered].
  by rewrite <- app_assoc.
Qed.

Lemma reachable_after_remove st client message c :
  c ≠ client →
  reachable (_remove_client (_send_message st client message) client) c = reachable st c.
Proof.
  intros Hc. rewrite remove_client_spec, send_message_spec.
  unfold reachable. cbn [closed gone with_delivered].
  f_equal. apply bool_decide_ext.
  rewrite not_elem_of_union, not_elem_of_singleton. tauto.
Qed.

(** The [/quit] path: every other registered socket that can be sent
    to gets the departure line once. *)
Lemma quit_announces_departure st client username c :
  Dict.wf (users st) → c ≠ client →
  received_since st (_handle_quit st client username) c
  = if bool_decide (c ∈ Dict.keys (users st) ∧ reachable st c)
    then [username ++ lit " has left the chat."] else [].
Proof.
  intros Hwf Hc. rewrite quit_spec. cbv zeta.
  unfold received_since, sent_since. cbn [delivered with_delivered].
  rewrite drop_app_length, filter_app, fmap_app.
  assert (Hbye : filter (λ d : sock * str, d.1 = c)
                   (if reachable st client then [(client, lit "Goodbye!")] else []) = []).
  { destruct (reachable st client); [|done].
    rewrite filter_cons, decide_False; [done|]. cbn [fst]. congruence. }
  rewrite Hbye, app_nil_l. unfold fanout.
  assert (Hkeys : Dict.keys (users (_remove_client (_send_message st client (lit "Goodbye!")) client))
                  = filter (λ k, k ≠ client) (Dict.keys (users st))).
  { rewrite remove_client_spec, send_message_spec. cbn [users with_delivered]. apply keys_del. }
  rewrite Hkeys, copies_for by (by do 2 apply NoDup_filter).
  rewrite (bool_decide_ext _ (c ∈ Dict.keys (users st) ∧ reachable st c)); [done|].
  rewrite !list_elem_of_filter, reachable_after_remove by done.
  split; [intros ((_ & ?) & _ & ?); done|intros [? ?]; done].
Qed.

(** Carol registers and then types "/quit": alice and bob each get her
    departure line once. *)
Example quit_is_announced :
  let r := _handle_client lobby carol [Recv (lit "carol") noon; Recv (lit "/quit") noon] in
  r.2 = Finished
  ∧ users r.1 = [(alice, lit "alice"); (bob, lit "bob")]
  ∧ inbox r.1 alice = [lit "carol has joined the chat!"; lit "carol has left the chat."]
  ∧ inbox r.1 bob = [lit "carol has joined the chat!"; lit "carol has left the chat."].
Proof. by vm_compute. Qed.

(** C2 on a peer that closes its end: carol registers, then [recv]
    returns the empty string.  The worker leaves its loop and
    [_remove_client] unregisters carol and closes her socket, but no
    departure line is sent: alice and bob have received her arrival
    and nothing else.  The same holds when [recv] raises. *)
Theorem peer_close_is_not_announced :
  let r := _handle_client lobby carol [Recv (lit "carol") noon; Recv [] noon] in
  let r' := _handle_client lobby carol [Recv (lit "carol") noon; RecvError] in
  r.2 = Finished
  ∧ users r.1 = [(alice, lit "alice"); (bob, lit "bob")]
  ∧ carol ∈ closed r.1
  ∧ inbox r.1 alice = [lit "carol has joined the chat!"]
  ∧ inbox r.1 bob = [lit "carol has joined the chat!"]
  ∧ r'.2 = Finished
  ∧ inbox r'.1 alice = [lit "carol has joined the chat!"]
  ∧ inbox r'.1 bob = [lit "carol has joined the chat!"].
Proof.
  cbv zeta. repeat split; by vm_compute.
Qed.

(** ** Two workers, one name *)

(** Run one after the other, the second worker is turned down. *)
Example serial_registrations_one_wins :
  let sys := run two_bobs [0; 0; 1; 1]%nat in
  users (server sys) = [(4%nat, lit "bob")]
  ∧ w_stage <$> workers sys = [Registered (lit "bob"); Negotiating]
  ∧ inbox (server sys) 5%nat = [username_prompt; username_rejected].
Proof. by vm_compute. Qed.

(** C6 on two connections that submit "bob" at the same time: when
    the second worker runs its test before the first has written
    [users], both tests pass, both workers register, and nobody is
    sent the rejection line. *)
Theorem racing_registrations_both_succeed :
  let sys := run two_bobs [0; 1; 0; 1]%nat in
  users (server sys) = [(4%nat, lit "bob"); (5%nat, lit "bob")]
  ∧ w_stage <$> workers sys = [Registered (lit "bob"); Registered (lit "bob")]
  ∧ inbox (server sys) 4%nat = [username_prompt]
  ∧ inbox (server sys) 5%nat = [username_prompt]
  ∧ ¬ NoDup (Dict.values (users (server sys))).
Proof.
  cbv zeta. repeat split; try (by vm_compute).
  intros H. apply (bool_decide_pack _) in H. by vm_compute in H.
Qed.

Lemma set_fresh {V} (k : sock) (v : V) (d : Dict.dict V) :
  k ∉ Dict.keys d → Dict.set k v d = d ++ [(k, v)].
Proof.
  unfold Dict.keys. induction d as [|[k' v'] d IH]; [done|].
  rewrite fmap_cons, not_elem_of_cons. cbn [fst]. intros [Hne Hd].
  cbn [Dict.set]. rewrite decide_False by congruence.
  by rewrite IH.
Qed.

(** When nothing runs between the test of [_get_username] and the
    write to [users], a new registration keeps the keys and the names
    free of duplicates. *)
Lemma register_keeps_names_unique st client username :
  username_ok st username = true →
  client ∉ Dict.keys (users st) →
  Dict.wf (users st) →
  NoDup (Dict.values (users st)) →
  Dict.wf (Dict.set client username (users st))
  ∧ NoDup (Dict.values (Dict.set client username (users st))).
Proof.
  intros [_ Hfree]%username_ok_sound Hnew Hwf Hnames.
  rewrite set_fresh by done. unfold Dict.wf, Dict.keys, Dict.values in *.
  rewrite !fmap_app. cbn [fmap list_fmap fst snd].
  split; apply NoDup_app; (split; [done|]);
    (split; [intros x Hx ->%list_elem_of_singleton; done|apply NoDup_singleton]).
Qed.

(** * Further properties *)

(** ** What a worker touches *)

Lemma own_footprint_refl client st : own_footprint client st st.
Proof. by repeat split. Qed.

Lemma own_footprint_trans client st1 st2 st3 :
  own_footprint client st1 st2 → own_footprint client st2 st3 →
  own_footprint client st1 st3.
Proof.
  intros (Hu & Ha & Hr & Hg & Hc & Hd) (Hu' & Ha' & Hr' & Hg' & Hc' & Hd').
  repeat split; try congruence. by etrans.
Qed.

Lemma own_footprint_send client st c message :
  own_footprint client st (_send_message st c message).
Proof.
  rewrite send_message_spec. repeat split; try done.
  cbn [delivered with_delivered]. by apply prefix_app_r.
Qed.

Lemma own_footprint_broadcast client st message exclude :
  own_footprint client st (broadcast st message exclude).
Proof.
  rewrite broadcast_spec. repeat split; try done.
  cbn [delivered with_delivered]. by apply prefix_app_r.
Qed.

Lemma own_footprint_remove client st :
  own_footprint client st (_remove_client st client).
Proof.
  rewrite remove_client_spec. repeat split; cbn; try done.
  - apply del_idemp.
  - apply delete_delete_eq.
  - apply set_eq. intros x.
    rewrite !elem_of_difference, elem_of_union, elem_of_singleton. tauto.
Qed.

Lemma del_set {V} (k : sock) (v : V) (d : Dict.dict V) :
  Dict.del k (Dict.set k v d) = Dict.del k d.
Proof.
  unfold Dict.del. induction d as [|[k' v'] d IH].
  - cbn [Dict.set]. by rewrite filter_cons, decide_False by (cbn; tauto).
  - cbn [Dict.set]. destruct (decide (k' = k)) as [->|Hne].
    + by rewrite !filter_cons, !decide_False by (cbn; tauto).
    + by rewrite !filter_cons, !decide_True, IH by (cbn; congruence).
Qed.

Lemma own_footprint_register client st username :
  own_footprint client st (with_users st (Dict.set client username (users st))).
Proof. repeat split; try done. apply del_set. Qed.

Lemma own_footprint_quit client st username :
  own_footprint client st (_handle_quit st client username).
Proof.
  unfold _handle_quit.
  eapply own_footprint_trans; [apply own_footprint_send|].
  eapply own_footprint_trans; [apply own_footprint_remove|].
  apply own_footprint_broadcast.
Qed.

Lemma own_footprint_whisper client st command sender :
  own_footprint client st (_handle_whisper st client command sender).
Proof.
  unfold _handle_whisper.
  destruct (split command) as [|? [|recipient parts]];
    try apply own_footprint_send.
  destruct (find_recipient st recipient); [|apply own_footprint_send].
  eapply own_footprint_trans; apply own_footprint_send.
Qed.

Lemma own_footprint_command client st command username st' :
  _handle_command st client command username = Some st' →
  own_footprint client st st'.
Proof.
  unfold _handle_command. destruct (split command) as [|cmd ?]; [done|].
  unfold lookup_command, commands.
  repeat (rewrite filter_cons; cbn [fst];
          destruct (decide (_ = cmd)) as [_|_];
          [cbn; intros [= <-];
           first [apply own_footprint_quit | apply own_footprint_whisper
                 | apply own_footprint_send]|]).
  rewrite filter_nil. cbn. intros [= <-]. apply own_footprint_send.
Qed.

Lemma own_footprint_process client username evs :
  ∀ st, own_footprint client st (_process_client_messages st client username evs).1.
Proof.
  induction evs as [|ev evs IH]; intros st.
  - unfold _process_client_messages.
    destruct (negb (running st)); [apply own_footprint_refl|].
    destruct (decide _); apply own_footprint_refl.
  - unfold _process_client_messages; fold _process_client_messages.
    destruct (negb (running st)); [apply own_footprint_refl|].
    destruct (decide _); [apply own_footprint_refl|].
    destruct ev as [message now|]; [|apply own_footprint_refl].
    destruct (negb (truthy message)); [apply own_footprint_refl|].
    destruct (startswith message (lit "/")).
    + destruct (_handle_command st client message username) as [st'|] eqn:E;
        [|apply own_footprint_refl].
      eapply own_footprint_trans; [by eapply own_footprint_command|apply IH].
    + eapply own_footprint_trans; [apply own_footprint_broadcast|apply IH].
Qed.

Lemma own_footprint_get_username client evs :
  ∀ st, own_footprint client st (_get_username st client evs).1.
Proof.
  induction evs as [|ev evs IH]; intros st; rewrite get_username_unfold; cbv zeta.
  - destruct (decide _); apply own_footprint_send.
  - destruct (decide _); [apply own_footprint_send|].
    destruct ev as [data now|]; [|apply own_footprint_send].
    destruct (username_ok _ _); [apply own_footprint_send|].
    eapply own_footprint_trans; [apply own_footprint_send|].
    eapply own_footprint_trans; [apply own_footprint_send|apply IH].
Qed.

(** X1: whatever a connection's worker reads, it leaves every other
    socket's entry in [users] and [addresses] as it was and in place,
    closes no socket but its own, leaves [running] alone and only adds
    to what has been delivered. *)
Theorem worker_touches_only_its_own client st evs :
  own_footprint client st (_handle_client st client evs).1.
Proof.
  unfold _handle_client.
  destruct (addresses st !! client); [|apply own_footprint_refl].
  pose proof (own_footprint_get_username client evs st) as Hneg.
  destruct (_get_username st client evs) as [st1 [username rest| |]]; cbn [fst] in Hneg.
  - pose proof (own_footprint_process client username rest
      (broadcast
         (_send_message (with_users st1 (Dict.set client username (users st1))) client
            (lit "Welcome " ++ username ++ lit "! Type /help for commands."))
         (username ++ lit " has joined the chat!") None)) as Hloop.
    assert (Hreg : own_footprint client st
      (broadcast
         (_send_message (with_users st1 (Dict.set client username (users st1))) client
            (lit "Welcome " ++ username ++ lit "! Type /help for commands."))
         (username ++ lit " has joined the chat!") None)).
    { eapply own_footprint_trans; [exact Hneg|].
      eapply own_footprint_trans; [apply own_footprint_register|].
      eapply own_footprint_trans; [apply own_footprint_send|].
      apply own_footprint_broadcast. }
    destruct (_process_client_messages _ client username rest) as [st5 []];
      cbn [fst] in *.
    + eapply own_footprint_trans; [exact Hreg|].
      eapply own_footprint_trans; [exact Hloop|apply own_footprint_remove].
    + by eapply own_footprint_trans.
  - cbn [fst]. eapply own_footprint_trans; [exact Hneg|apply own_footprint_remove].
  - exact Hneg.
Qed.

(** X2: when a worker ends, its socket is in neither dictionary and is
    closed, whichever way the worker was left (the [finally] of
    [_handle_client]); this needs the socket to have been entered in
    [addresses] by the accept loop. *)
Theorem finished_worker_leaves_no_entry st client evs a :
  addresses st !! client = Some a →
  (_handle_client st client evs).2 = Finished →
  (client ∉ Dict.keys (users (_handle_client st client evs).1))
  ∧ addresses (_handle_client st client evs).1 !! client = None
  ∧ client ∈ closed (_handle_client st client evs).1.
Proof.
  intros Ha. unfold _handle_client. rewrite Ha.
  assert (Hgone : ∀ s, (client ∉ Dict.keys (users (_remove_client s client)))
                       ∧ addresses (_remove_client s client) !! client = None
                       ∧ client ∈ closed (_remove_client s client)).
  { intros s. rewrite remove_client_spec. cbn [users addresses closed].
    split; [|split].
    - rewrite keys_del. intros [Hne _]%list_elem_of_filter. done.
    - apply lookup_delete_eq.
    - apply elem_of_union_l. by apply elem_of_singleton. }
  destruct (_get_username st client evs) as [st1 [username rest| |]].
  - destruct (_process_client_messages _ client username rest) as [st5 []];
      cbn [fst snd]; [intros _; apply Hgone|done].
  - intros _. apply Hgone.
  - done.
Qed.

Lemma finished_worker_leaves_no_entry_witness :
  (carol ∉ Dict.keys (users (_handle_client lobby carol
                               [Recv (lit "carol") noon; Recv [] noon]).1))
  ∧ addresses (_handle_client lobby carol
                 [Recv (lit "carol") noon; Recv [] noon]).1 !! carol = None
  ∧ carol ∈ closed (_handle_client lobby carol
                      [Recv (lit "carol") noon; Recv [] noon]).1.
Proof.
  apply (finished_worker_leaves_no_entry lobby carol
           [Recv (lit "carol") noon; Recv [] noon] (localhost 50003)).
  - reflexivity.
  - vm_compute. reflexivity.
Defined.

(** ** Names under a single worker *)

Lemma get_username_returned st client evs st1 username rest :
  _get_username st client evs = (st1, Returned username rest) →
  username_ok st username = true ∧ users st1 = users st.
Proof.
  revert st. induction evs as [|ev evs IH]; intros st; rewrite get_username_unfold;
    cbv zeta; rewrite send_message_spec.
  - by destruct (decide _).
  - destruct (decide _); [done|]. destruct ev as [data now|]; [|done].
    destruct (username_ok _ (strip data)) eqn:Hok.
    + intros [= <- <- <-]. done.
    + rewrite send_message_spec, with_delivered_twice. intros H%IH. exact H.
Qed.

Lemma get_username_keeps_users st client evs :
  users (_get_username st client evs).1 = users st.
Proof.
  revert st. induction evs as [|ev evs IH]; intros st; rewrite get_username_unfold;
    cbv zeta; rewrite send_message_spec.
  - by destruct (decide _).
  - destruct (decide _); [done|]. destruct ev as [data now|]; [|done].
    destruct (username_ok _ (strip data)); [done|].
    rewrite send_message_spec, with_delivered_twice. by rewrite IH.
Qed.

Lemma users_after_command st client command username st' :
  _handle_command st client command username = Some st' →
  users st' = users st ∨ users st' = Dict.del client (users st).
Proof.
  unfold _handle_command. destruct (split command) as [|cmd ?]; [done|].
  unfold lookup_command, commands.
  rewrite filter_cons; cbn [fst]. destruct (decide (_ = cmd)) as [_|_].
  { cbn [head fmap option_fmap option_map snd]. intros [= <-]. right. unfold _handle_quit.
    by rewrite broadcast_spec, remove_client_spec, send_message_spec. }
  rewrite filter_cons; cbn [fst]. destruct (decide (_ = cmd)) as [_|_].
  { cbn [head fmap option_fmap option_map snd]. intros [= <-]. left. unfold _show_online_users. by rewrite send_message_spec. }
  rewrite filter_cons; cbn [fst]. destruct (decide (_ = cmd)) as [_|_].
  { cbn [head fmap option_fmap option_map snd]. intros [= <-]. left. unfold _show_help. by rewrite send_message_spec. }
  rewrite filter_cons; cbn [fst]. destruct (decide (_ = cmd)) as [_|_].
  { cbn [head fmap option_fmap option_map snd]. intros [= <-]. left. unfold _handle_whisper.
    destruct (split command) as [|? [|recipient parts]];
      try (by rewrite send_message_spec).
    destruct (find_recipient st recipient); by rewrite !send_message_spec. }
  rewrite filter_nil. cbn [head fmap option_fmap option_map]. intros [= <-]. left. by rewrite send_message_spec.
Qed.

Lemma users_after_process client username evs :
  ∀ st, users (_process_client_messages st client username evs).1 = users st
        ∨ users (_process_client_messages st client username evs).1
          = Dict.del client (users st).
Proof.
  induction evs as [|ev evs IH]; intros st.
  - unfold _process_client_messages.
    destruct (negb (running st)); [by left|]. destruct (decide _); by left.
  - unfold _process_client_messages; fold _process_client_messages.
    destruct (negb (running st)); [by left|].
    destruct (decide _); [by left|].
    destruct ev as [message now|]; [|by left].
    destruct (negb (truthy message)); [by left|].
    destruct (startswith message (lit "/")).
    + destruct (_handle_command st client message username) as [st'|] eqn:E; [|by left].
      destruct (users_after_command _ _ _ _ _ E) as [Hu|Hu];
        destruct (IH st') as [Hi|Hi]; rewrite Hi, Hu, ?del_idemp; auto.
    + destruct (IH (broadcast st (chat_line now username message) None)) as [Hi|Hi];
        rewrite Hi, broadcast_spec; auto.
Qed.

Lemma del_keeps_unique (k : sock) (d : Dict.dict str) :
  Dict.wf d ∧ NoDup (Dict.values d) →
  Dict.wf (Dict.del k d) ∧ NoDup (Dict.values (Dict.del k d)).
Proof.
  intros [Hwf Hnames]. split.
  - unfold Dict.wf. rewrite keys_del. by apply NoDup_filter.
  - unfold Dict.values, Dict.del.
    eapply sublist_NoDup; [exact Hnames|apply fmap_sublist, sublist_filter].
Qed.

(** X3: while no other worker runs, the worker of a socket that is not
    yet registered keeps [users] free of duplicate sockets and of
    duplicate names, whatever it reads and wherever it stops. *)
Theorem lone_worker_keeps_names_unique st client evs :
  Dict.wf (users st) →
  NoDup (Dict.values (users st)) →
  client ∉ Dict.keys (users st) →
  Dict.wf (users (_handle_client st client evs).1)
  ∧ NoDup (Dict.values (users (_handle_client st client evs).1)).
Proof.
  intros Hwf Hnames Hnew. unfold _handle_client.
  destruct (addresses st !! client); [|done].
  pose proof (get_username_keeps_users st client evs) as Hsame.
  destruct (_get_username st client evs) as [st1 [username rest| |]] eqn:Hneg;
    cbn [fst] in Hsame.
  - apply get_username_returned in Hneg as [Hok _].
    assert (Hreg : Dict.wf (Dict.set client username (users st1))
                   ∧ NoDup (Dict.values (Dict.set client username (users st1)))).
    { rewrite Hsame. by apply (register_keeps_names_unique st). }
    match goal with
    | |- context [_process_client_messages ?s client username rest] =>
        pose proof (users_after_process client username rest s) as Hloop;
        assert (Hs : users s = Dict.set client username (users st1))
          by (by rewrite broadcast_spec, send_message_spec);
        destruct (_process_client_messages s client username rest) as [st5 []]
    end; cbn [fst] in *; rewrite ?remove_client_spec; cbn [users];
      destruct Hloop as [-> | ->]; rewrite Hs;
      repeat apply del_keeps_unique; exact Hreg.
  - cbn [fst]. rewrite remove_client_spec. cbn [users]. rewrite Hsame.
    by apply del_keeps_unique.
  - cbn [fst]. by rewrite Hsame.
Qed.

Lemma lone_worker_keeps_names_unique_witness :
  Dict.wf (users (_handle_client lobby carol [Recv (lit "bob") noon; Recv (lit "carol") noon]).1)
  ∧ NoDup (Dict.values
             (users (_handle_client lobby carol
                       [Recv (lit "bob") noon; Recv (lit "carol") noon]).1)).
Proof.
  apply (lone_worker_keeps_names_unique lobby carol
           [Recv (lit "bob") noon; Recv (lit "carol") noon]).
  - apply (bool_decide_unpack _). vm_compute. exact I.
  - apply (bool_decide_unpack _). vm_compute. exact I.
  - apply (bool_decide_unpack _). vm_compute. exact I.
Defined.

(** ** Joining *)

Lemma received_app st more c :
  received_since st (with_delivered st (delivered st ++ more)) c
  = (filter (λ d : sock * str, d.1 = c) more).*2.
Proof. unfold received_since. by rewrite sent_since_with_delivered. Qed.

(** X4: a connection whose first submission is acceptable is
    registered at the end of [users]; it is sent the prompt, the
    welcome line and then its own join notice, and every socket that
    was registered before is sent the join notice once; the worker
    then waits for input. *)
Theorem newcomer_is_announced st client a data now c :
  addresses st !! client = Some a →
  running st = true →
  client ∉ closed st →
  username_ok st (strip data) = true →
  Dict.wf (users st) →
  client ∉ Dict.keys (users st) →
  ∃ st', _handle_client st client [Recv data now] = (st', Blocked)
    ∧ users st' = users st ++ [(client, strip data)]
    ∧ received_since st st' c
      = if decide (c = client)
        then (if reachable st client
              then [username_prompt; welcome_line (strip data); joined_line (strip data)]
              else [])
        else if bool_decide (c ∈ Dict.keys (users st) ∧ reachable st c)
             then [joined_line (strip data)] else [].
Proof.
  intros Ha Hrun Hopen Hok Hwf Hnew.
  unfold _handle_client. rewrite Ha, get_username_unfold. cbv zeta.
  rewrite send_message_spec. cbn [closed with_delivered].
  rewrite decide_False by done.
  change (username_ok (with_delivered st ?d) ?u) with (username_ok st u). rewrite Hok.
  rewrite broadcast_spec, send_message_spec. cbn [users with_users with_delivered delivered].
  rewrite set_fresh by done.
  rewrite process_at_rest by done. eexists. split; [reflexivity|].
  split; [reflexivity|].
  unfold fanout. cbn [users with_users with_delivered].
  change (reachable (with_users (with_delivered st ?d) ?u) ?k) with (reachable st k).
  change (reachable (with_delivered (with_users (with_delivered st ?d) ?u) ?d') ?k)
    with (reachable st k).
  rewrite <- !app_assoc.
  change (with_delivered (with_delivered ?s ?d) ?d') with (with_delivered s d').
  unfold received_since, sent_since. cbn [delivered with_delivered].
  rewrite drop_app_length, !filter_app, !fmap_app.
  unfold Dict.keys. rewrite fmap_app. cbn [fmap list_fmap fst].
  rewrite copies_for.
  2:{ apply NoDup_filter, NoDup_app. split; [done|]. split; [|apply NoDup_singleton].
      intros x Hx ->%list_elem_of_singleton. done. }
  destruct (decide (c = client)) as [->|Hc].
  - destruct (reachable st client) eqn:Er.
    + rewrite !filter_cons, !decide_True by done. rewrite filter_nil.
      rewrite bool_decide_eq_true_2; [done|].
      apply list_elem_of_filter. split; [by rewrite Er|].
      apply elem_of_app. right. by apply list_elem_of_singleton.
    + rewrite filter_nil. rewrite bool_decide_eq_false_2; [done|].
      intros [[_ Hr] _]%list_elem_of_filter. by rewrite Er in Hr.
  - assert (Hnot : ∀ m, filter (λ d : sock * str, d.1 = c)
                          (if reachable st client then [(client, m)] else []) = []).
    { intros m. destruct (reachable st client); [|done].
      rewrite filter_cons, decide_False; [done|]. cbn [fst]. congruence. }
    rewrite !Hnot. cbn [fmap list_fmap app].
    rewrite (bool_decide_ext _ (c ∈ (users st).*1 ∧ reachable st c)); [done|].
    rewrite list_elem_of_filter, elem_of_app, list_elem_of_singleton.
    split; [intros [[_ ?] [?|?]]; done|intros [? ?]; auto].
Qed.

Lemma newcomer_is_announced_witness :
  ∃ st', _handle_client lobby carol [Recv (lit " carol ") noon] = (st', Blocked)
    ∧ users st' = users lobby ++ [(carol, strip (lit " carol "))]
    ∧ received_since lobby st' alice
      = if decide (alice = carol)
        then (if reachable lobby carol
              then [username_prompt; welcome_line (strip (lit " carol "));
                    joined_line (strip (lit " carol "))]
              else [])
        else if bool_decide (alice ∈ Dict.keys (users lobby) ∧ reachable lobby alice)
             then [joined_line (strip (lit " carol "))] else [].
Proof.
  apply (newcomer_is_announced lobby carol (localhost 50003) (lit " carol ") noon alice).
  - reflexivity.
  - reflexivity.
  - apply (bool_decide_unpack _). vm_compute. exact I.
  - vm_compute. reflexivity.
  - apply (bool_decide_unpack _). vm_compute. exact I.
  - apply (bool_decide_unpack _). vm_compute. exact I.
Defined.

(** ** Quitting *)

Lemma handle_command_quit st client command username :
  startswith command (lit "/") = true →
  leading_token command = lit "/quit" →
  _handle_command st client command username = Some (_handle_quit st client username).
Proof.
  intros [r ->]%startswith_slash Htok.
  destruct (split_first_token 47 r eq_refl) as [more Hsplit].
  unfold _handle_command. rewrite Hsplit, Htok. reflexivity.
Qed.

Lemma quit_fields st client username :
  users (_handle_quit st client username) = Dict.del client (users st)
  ∧ addresses (_handle_quit st client username) = delete client (addresses st)
  ∧ closed (_handle_quit st client username) = {[client]} ∪ closed st.
Proof.
  rewrite quit_spec. cbv zeta. cbn [users addresses closed with_delivered].
  by rewrite remove_client_spec, send_message_spec.
Qed.

Lemma remove_again s client :
  client ∉ Dict.keys (users s) →
  addresses s !! client = None →
  client ∈ closed s →
  _remove_client s client = s.
Proof.
  intros Hu Ha Hc. rewrite remove_client_spec. destruct s as [u a r c g d].
  cbn [users addresses closed running gone delivered] in *. f_equal.
  - by apply del_absent.
  - by apply delete_id.
  - apply set_eq. intros x. rewrite elem_of_union, elem_of_singleton.
    split; [intros [->|?]; done|by right].
Qed.

(** X5: [/quit] sends the farewell to the quitting client and the
    departure line once to every other registered socket that can be
    sent to; the quitting client is not sent the departure line, and it
    is removed from [users] and its socket closed. *)
Theorem quit_says_goodbye_and_announces st client username c :
  Dict.wf (users st) →
  received_since st (_handle_quit st client username) c
  = (if decide (c = client)
     then (if reachable st client then [lit "Goodbye!"] else [])
     else if bool_decide (c ∈ Dict.keys (users st) ∧ reachable st c)
          then [username ++ lit " has left the chat."] else [])
  ∧ users (_handle_quit st client username) = Dict.del client (users st)
  ∧ client ∈ closed (_handle_quit st client username).
Proof.
  intros Hwf. split; [|split].
  - destruct (decide (c = client)) as [->|Hc]; [|by apply quit_announces_departure].
    rewrite quit_spec. cbv zeta.
    unfold received_since, sent_since. cbn [delivered with_delivered].
    rewrite drop_app_length, filter_app, fmap_app. unfold fanout.
    rewrite copies_for.
    2:{ apply NoDup_filter. rewrite remove_client_spec, send_message_spec.
        cbn [users with_delivered]. rewrite keys_del. by apply NoDup_filter. }
    rewrite bool_decide_eq_false_2.
    2:{ intros [_ Hin]%list_elem_of_filter. revert Hin.
        rewrite remove_client_spec, send_message_spec. cbn [users with_delivered].
        rewrite keys_del. intros [Hne _]%list_elem_of_filter. done. }
    rewrite app_nil_r. destruct (reachable st client); [|done].
    by rewrite filter_cons, decide_True.
  - rewrite quit_spec. cbv zeta. cbn [users with_delivered].
    by rewrite remove_client_spec, send_message_spec.
  - rewrite quit_spec. cbv zeta. cbn [closed with_delivered].
    rewrite remove_client_spec. cbn [closed].
    apply elem_of_union_l. by apply elem_of_singleton.
Qed.

Lemma quit_says_goodbye_and_announces_witness :
  received_since bob_gone (_handle_quit bob_gone carol (lit "carol")) alice
  = (if decide (alice = carol)
     then (if reachable bob_gone carol then [lit "Goodbye!"] else [])
     else if bool_decide (alice ∈ Dict.keys (users bob_gone) ∧ reachable bob_gone alice)
          then [lit "carol" ++ lit " has left the chat."] else [])
  ∧ users (_handle_quit bob_gone carol (lit "carol")) = Dict.del carol (users bob_gone)
  ∧ carol ∈ closed (_handle_quit bob_gone carol (lit "carol")).
Proof.
  apply (quit_says_goodbye_and_announces bob_gone carol (lit "carol") alice).
  apply (bool_decide_unpack _). vm_compute. exact I.
Defined.

(** X6: a line whose command is [/quit] ends the worker: the loop is
    left with the state [_handle_quit] produced, whatever else the
    peer has sent after it is never handled, and the cleanup of
    [_handle_client] that follows changes nothing any more. *)
Theorem quit_ends_the_worker st client username command now rest :
  running st = true →
  client ∉ closed st →
  startswith command (lit "/") = true →
  leading_token command = lit "/quit" →
  _process_client_messages st client username (Recv command now :: rest)
  = (_handle_quit st client username, Finished)
  ∧ _remove_client (_handle_quit st client username) client
    = _handle_quit st client username.
Proof.
  intros Hrun Hopen Hslash Htok.
  assert (Hne : command ≠ []) by (by destruct command).
  assert (Hclosed : client ∈ closed (_handle_quit st client username)).
  { rewrite quit_spec. cbv zeta. cbn [closed with_delivered].
    rewrite remove_client_spec. cbn [closed].
    apply elem_of_union_l. by apply elem_of_singleton. }
  split.
  - rewrite process_one_message, Hslash, handle_command_quit by done.
    destruct rest; unfold _process_client_messages;
      (destruct (negb (running _)); [done|]); by rewrite decide_True.
  - destruct (quit_fields st client username) as (Hu & Ha & Hc).
    apply remove_again; [| |done].
    + rewrite Hu, keys_del. intros [Hself _]%list_elem_of_filter. done.
    + rewrite Ha. apply lookup_delete_eq.
Qed.

Lemma quit_ends_the_worker_witness :
  _process_client_messages three_users carol (lit "carol")
    (Recv (lit "/quit now") noon :: [Recv (lit "still here?") noon])
  = (_handle_quit three_users carol (lit "carol"), Finished)
  ∧ _remove_client (_handle_quit three_users carol (lit "carol")) carol
    = _handle_quit three_users carol (lit "carol").
Proof.
  apply (quit_ends_the_worker three_users carol (lit "carol") (lit "/quit now") noon
           [Recv (lit "still here?") noon]).
  - reflexivity.
  - apply (bool_decide_unpack _). vm_compute. exact I.
  - reflexivity.
  - reflexivity.
Defined.

(** ** Shutting down *)

Lemma remove_all_spec (l : list sock) :
  ∀ st, users (foldl _remove_client st l) = filter (λ kv, kv.1 ∉ l) (users st)
        ∧ closed (foldl _remove_client st l) = list_to_set l ∪ closed st
        ∧ (∀ c, addresses (foldl _remove_client st l) !! c
                = if decide (c ∈ l) then None else addresses st !! c)
        ∧ running (foldl _remove_client st l) = running st
        ∧ gone (foldl _remove_client st l) = gone st
        ∧ delivered (foldl _remove_client st l) = delivered st.
Proof.
  induction l as [|k l IH]; intros st.
  - cbn [foldl]. split; [|split; [|split]].
    + symmetry. induction (users st) as [|kv u IHu]; [done|].
      rewrite filter_cons_True by apply not_elem_of_nil. by rewrite IHu.
    + rewrite list_to_set_nil. by rewrite (left_id_L ∅ (∪)).
    + intros c. by rewrite decide_False by apply not_elem_of_nil.
    + done.
  - cbn [foldl]. destruct (IH (_remove_client st k)) as (Hu & Hc & Ha & Hr & Hg & Hd).
    rewrite Hu, Hc, Hr, Hg, Hd.
    split; [|split; [|split]].
    + rewrite remove_client_spec. cbn [users].
      unfold Dict.del. rewrite list_filter_filter. apply list_filter_iff.
      intros [k' v]. cbn [fst]. rewrite not_elem_of_cons. tauto.
    + rewrite remove_client_spec. cbn [closed].
      rewrite list_to_set_cons. apply set_eq. intros x.
      rewrite !elem_of_union. tauto.
    + intros c. rewrite Ha, remove_client_spec. cbn [addresses].
      destruct (decide (c ∈ l)) as [Hin|Hout].
      * by rewrite decide_True by (by right).
      * destruct (decide (c = k)) as [->|Hne].
        -- rewrite decide_True by left. apply lookup_delete_eq.
        -- rewrite decide_False by (rewrite elem_of_cons; tauto).
           by apply lookup_delete_ne.
    + by rewrite remove_client_spec.
Qed.

Lemma filter_out_all (l : list sock) (d : Dict.dict str) :
  (∀ kv, kv ∈ d → kv.1 ∈ l) → filter (λ kv : sock * str, kv.1 ∉ l) d = [].
Proof.
  induction d as [|kv d IH]; intros Hall; [done|].
  rewrite filter_cons_False by (intros Hout; apply Hout, Hall; left).
  apply IH. intros kv' Hin. apply Hall. by right.
Qed.

(** X7: [shutdown] clears [running], empties [users], closes every
    registered socket and drops its address, and sends the clients
    nothing; a socket that is accepted but not yet registered is
    neither closed nor taken out of [addresses].  Afterwards a worker
    that comes back to the head of its loop leaves it without
    reading. *)
Theorem shutdown_closes_registered_clients st :
  users (shutdown st) = []
  ∧ running (shutdown st) = false
  ∧ closed (shutdown st) = list_to_set (Dict.keys (users st)) ∪ closed st
  ∧ (∀ c, addresses (shutdown st) !! c
          = if decide (c ∈ Dict.keys (users st)) then None else addresses st !! c)
  ∧ delivered (shutdown st) = delivered st
  ∧ (∀ client username evs,
       _process_client_messages (shutdown st) client username evs
       = (shutdown st, Finished)).
Proof.
  unfold shutdown. cbv zeta. cbn [users with_running].
  destruct (remove_all_spec (Dict.keys (users st)) (with_running st false))
    as (Hu & Hc & Ha & Hr & Hg & Hd).
  cbn [users closed addresses running delivered with_running] in *.
  split; [|split; [|split; [|split; [|split]]]]; try done.
  - rewrite Hu. apply filter_out_all. intros kv Hin.
    apply list_elem_of_fmap. by exists kv.
  - intros client username evs. unfold shutdown. cbv zeta. cbn [users with_running].
    destruct evs; unfold _process_client_messages; by rewrite Hr.
Qed.


(** ** A peer that closes while it is asked for a name *)

Lemma get_username_blank client evs :
  ∀ st, client ∉ closed st → Forall blank_read evs →
        _get_username st client evs
        = (with_delivered st
             (delivered st ++ if reachable st client then prompts client evs else []),
           Waiting).
Proof.
  induction evs as [|ev evs IH]; intros st Hopen Hblank;
    rewrite get_username_unfold; cbv zeta; rewrite send_message_spec;
    cbn [closed with_delivered]; rewrite decide_False by done.
  - unfold prompts. by destruct (reachable st client).
  - apply Forall_cons in Hblank as [Hev Hblank].
    destruct ev as [data now|]; [|done]. cbn in Hev.
    unfold username_ok. rewrite Hev. cbn [truthy andb].
    rewrite send_message_spec, with_delivered_twice, IH by done.
    rewrite reachable_with_delivered, with_delivered_twice.
    cbn [delivered with_delivered]. do 2 f_equal.
    rewrite reachable_with_delivered. unfold prompts.
    destruct (reachable st client); cbn [flat_map app]; by rewrite <- ?app_assoc, ?app_nil_r.
Qed.

(** X8: when every read during the negotiation comes back empty or
    blank, as it does once the peer has closed, [_get_username]
    answers each with the rejection line and a new prompt and neither
    returns nor raises: the worker stays in the negotiation, the socket
    keeps its entry in [addresses] and is not closed, and nobody is
    registered. *)
Theorem blank_reads_keep_negotiating st client a evs :
  addresses st !! client = Some a →
  client ∉ closed st →
  Forall blank_read evs →
  ∃ st', _handle_client st client evs = (st', Blocked)
    ∧ users st' = users st
    ∧ addresses st' !! client = Some a
    ∧ closed st' = closed st
    ∧ delivered st'
      = delivered st ++ (if reachable st client then prompts client evs else []).
Proof.
  intros Ha Hopen Hblank. unfold _handle_client.
  rewrite Ha, get_username_blank by done. eexists. split; [reflexivity|]. done.
Qed.

Lemma blank_reads_keep_negotiating_witness :
  ∃ st', _handle_client lobby carol [Recv [] noon; Recv [] noon; Recv (lit "  ") noon]
         = (st', Blocked)
    ∧ users st' = users lobby
    ∧ addresses st' !! carol = Some (localhost 50003)
    ∧ closed st' = closed lobby
    ∧ delivered st'
      = delivered lobby
        ++ (if reachable lobby carol
            then prompts carol [Recv [] noon; Recv [] noon; Recv (lit "  ") noon] else []).
Proof.
  apply (blank_reads_keep_negotiating lobby carol (localhost 50003)
           [Recv [] noon; Recv [] noon; Recv (lit "  ") noon]).
  - reflexivity.
  - apply (bool_decide_unpack _). vm_compute. exact I.
  - repeat constructor.
Defined.

(** ** The list of users *)

Lemma leb_total a b : leb a b = true ∨ leb b a = true.
Proof.
  revert b. induction a as [|x a IH]; intros [|y b]; cbn [leb]; auto.
  destruct (N.lt_trichotomy x y) as [Hlt|[->|Hgt]].
  - left. apply orb_true_iff. left. by apply N.ltb_lt.
  - rewrite N.eqb_refl, N.ltb_irrefl. cbn [orb andb]. apply IH.
  - right. apply orb_true_iff. left. by apply N.ltb_lt.
Qed.

Lemma insert_sorted_perm x l : insert_sorted x l ≡ₚ x :: l.
Proof.
  induction l as [|y l IH]; cbn [insert_sorted]; [done|].
  destruct (leb x y); [done|]. rewrite IH. apply Permutation_swap.
Qed.

Lemma sorted_perm l : sorted l ≡ₚ l.
Proof.
  unfold sorted. induction l as [|x l IH]; [done|].
  cbn [foldr]. by rewrite insert_sorted_perm, IH.
Qed.

Lemma insert_sorted_ordered x l : Sorted str_le l → Sorted str_le (insert_sorted x l).
Proof.
  induction 1 as [|y l Hl IH Hhd]; cbn [insert_sorted].
  - by repeat constructor.
  - destruct (leb x y) eqn:Hxy.
    + constructor; [by constructor|]. by constructor.
    + constructor; [exact IH|].
      assert (Hyx : str_le y x).
      { destruct (leb_total x y) as [H|H]; [congruence|exact H]. }
      destruct Hhd as [|z l Hyz]; cbn [insert_sorted]; [by constructor|].
      destruct (leb x z); by constructor.
Qed.

Lemma sorted_ordered l : Sorted str_le (sorted l).
Proof.
  unfold sorted. induction l as [|x l IH]; cbn [foldr]; [constructor|].
  by apply insert_sorted_ordered.
Qed.

(** X9: the answer to [/online] goes to the asking socket only and is
    ["Users online: "] followed by the registered names joined with
    [", "]: every name in [users] appears as often as it is registered,
    in ascending order of code points. *)
Theorem online_lists_names_in_order st client :
  ∃ names,
    _show_online_users st client
    = _send_message st client (lit "Users online: " ++ join (lit ", ") names)
    ∧ names ≡ₚ Dict.values (users st)
    ∧ Sorted str_le names
    ∧ users (_show_online_users st client) = users st
    ∧ ∀ c, c ≠ client → received_since st (_show_online_users st client) c = [].
Proof.
  exists (sorted (Dict.values (users st))).
  split; [done|]. split; [apply sorted_perm|]. split; [apply sorted_ordered|].
  unfold _show_online_users. rewrite send_message_spec. split; [done|].
  intros c Hc. rewrite received_app.
  destruct (reachable st client); [|done].
  by rewrite filter_cons, decide_False by (cbn [fst]; congruence).
Qed.

(** ** The words of a whisper *)






(** ** The client's history *)

Lemma trim_history_spec (limit : Z) (history : list Message) :
  (0 ≤ limit)%Z →
  trim_history limit history
  = Some (drop (length history - Z.to_nat limit)%nat history).
Proof.
  intros Hlimit. induction history as [|m history IH].
  - cbn [trim_history length]. by rewrite (proj2 (Z.ltb_ge _ _)) by lia.
  - cbn [trim_history].
    destruct (Z.ltb_spec limit (Z.of_nat (length (m :: history)))) as [Hlt|Hge].
    + rewrite IH. cbn [length] in *.
      replace (S (length history) - Z.to_nat limit)%nat
        with (S (length history - Z.to_nat limit))%nat by lia.
      done.
    + cbn [length] in *.
      by replace (S (length history) - Z.to_nat limit)%nat with 0%nat by lia.
Qed.

(** X11: with history saving on and a limit that is not negative,
    [_add_to_history] appends the message and then drops the oldest
    entries until at most [max_history] are left: the history is the
    newest [max_history] entries of the old history followed by the
    message, whatever length it had before. *)
Theorem history_keeps_the_newest c message :
  save_history c = true →
  (0 ≤ max_history c)%Z →
  ∃ c', _add_to_history c message = Some c'
    ∧ message_history c'
      = drop (length (message_history c) + 1 - Z.to_nat (max_history c))%nat
          (message_history c ++ [message])
    ∧ (Z.of_nat (length (message_history c')) ≤ max_history c)%Z
    ∧ ((1 ≤ max_history c)%Z → last (message_history c') = Some message)
    ∧ max_history c' = max_history c.
Proof.
  intros Hsave Hlimit. unfold _add_to_history.
  rewrite Hsave, trim_history_spec by done. cbn [mbind option_bind].
  eexists. split; [reflexivity|]. cbn [message_history max_history].
  rewrite length_app. cbn [length]. split; [done|]. split; [|split; [|done]].
  - rewrite length_drop, length_app. cbn [length]. lia.
  - intros Hone.
    replace (length (message_history c) + 1 - Z.to_nat (max_history c))%nat
      with (length (message_history c) - (Z.to_nat (max_history c) - 1))%nat by lia.
    rewrite drop_app_le by lia. by rewrite last_snoc.
Qed.

Lemma history_keeps_the_newest_witness :
  let old := {| content := lit "one"; sender := lit "Unknown"; timestamp := noon;
                type := lit "normal"; recipient := None |} in
  let new := {| content := lit "two"; sender := lit "Unknown"; timestamp := noon;
                type := lit "normal"; recipient := None |} in
  let c := {| username := None; message_history := [old; old];
              max_history := 2; save_history := true |} in
  ∃ c', _add_to_history c new = Some c'
    ∧ message_history c'
      = drop (length (message_history c) + 1 - Z.to_nat (max_history c))%nat
          (message_history c ++ [new])
    ∧ (Z.of_nat (length (message_history c')) ≤ max_history c)%Z
    ∧ ((1 ≤ max_history c)%Z → last (message_history c') = Some new)
    ∧ max_history c' = max_history c.
Proof.
  cbv zeta. apply history_keeps_the_newest.
  - reflexivity.
  - cbn. lia.
Defined.

(** ** The client's connection attempts *)

(** X12: [connect] makes at least one and at most three attempts and
    sleeps two seconds between one attempt and the next; it returns
    [True] exactly when one of the first three attempts connects and
    every attempt before it timed out, so any other error ends it at
    once. *)
Theorem connect_tries_three_times tries :
  (1 ≤ attempts (connect tries) ≤ 3)%nat
  ∧ slept (connect tries) = (2 * (attempts (connect tries) - 1))%nat
  ∧ (connected (connect tries) = true
     ↔ ∃ i, (i < 3)%nat ∧ tries i = Connects ∧ ∀ j, (j < i)%nat → tries j = TimesOut).
Proof.
  unfold connect. cbn [connect_loop].
  destruct (tries 0%nat) eqn:E0; cbn [connected attempts slept].
  - split; [lia|]. split; [done|]. split; [|done].
    intros _. exists 0%nat. split; [lia|]. split; [done|]. intros j Hj. lia.
  - destruct (tries 1%nat) eqn:E1; cbn [connected attempts slept].
    + split; [lia|]. split; [done|]. split; [|done].
      intros _. exists 1%nat. split; [lia|]. split; [done|].
      intros j Hj. by replace j with 0%nat by lia.
    + destruct (tries 2%nat) eqn:E2; cbn [connected attempts slept].
      * split; [lia|]. split; [done|]. split; [|done].
        intros _. exists 2%nat. split; [lia|]. split; [done|].
        intros j Hj. destruct j as [|[|j]]; [done|done|lia].
      * split; [lia|]. split; [done|]. split; [done|].
        intros (i & Hi & Hc & _). destruct i as [|[|[|i]]]; [congruence..|lia].
      * split; [lia|]. split; [done|]. split; [done|].
        intros (i & Hi & Hc & _). destruct i as [|[|[|i]]]; [congruence..|lia].
    + split; [lia|]. split; [done|]. split; [done|].
      intros (i & Hi & Hc & Hbefore). destruct i as [|[|i]]; [congruence..|].
      specialize (Hbefore 1%nat ltac:(lia)). congruence.
  - split; [lia|]. split; [done|]. split; [done|].
    intros (i & Hi & Hc & Hbefore). destruct i as [|i]; [congruence|].
    specialize (Hbefore 0%nat ltac:(lia)). congruence.
Qed.

(** ** What reaches the server *)

(** X13: a line of the user that the client passes on to the server
    is the stripped line, is not empty, and, when it begins with '/',
    its first word in lower case is not a client command: a line whose
    first word is "/help" is answered by the client and never reaches
    the server.  (Of [str.lower] only that it leaves "/help" as it is
    is used.) *)
Theorem help_never_reaches_the_server lower line message :
  lower (lit "/help") = lit "/help" →
  send_step lower line = Sent message →
  message = strip line
  ∧ message ≠ []
  ∧ (startswith message (lit "/") = true →
     ∃ part args, split message = part :: args
       ∧ lookup_command (lower part) command_handlers = None
       ∧ leading_token message ≠ lit "/help").
Proof.
  intros Hhelp. unfold send_step. cbv zeta.
  destruct (bool_decide _); [done|].
  destruct (strip line) as [|c0 s] eqn:Hs; [done|]. cbn [truthy negb].
  destruct (startswith (c0 :: s) (lit "/")) eqn:Hslash.
  - unfold _handle_commands.
    apply startswith_slash in Hslash as [r [= -> ->]].
    destruct (split_first_token 47 r eq_refl) as [more Hsplit]. rewrite Hsplit.
    destruct (lookup_command _ command_handlers) as [most|] eqn:Hlook.
    + destruct (bool_decide _); intros [=].
    + intros [= <-]. split; [done|]. split; [done|]. intros _.
      exists (leading_token (47 :: r)), more. split; [done|]. split; [done|].
      intros Htok. rewrite Htok, Hhelp in Hlook. by vm_compute in Hlook.
  - intros [= <-]. split; [done|]. split; [done|]. by rewrite Hslash.
Qed.

Lemma help_never_reaches_the_server_witness :
  lit "/online" = strip (lit " /online ")
  ∧ lit "/online" ≠ []
  ∧ (startswith (lit "/online") (lit "/") = true →
     ∃ part args, split (lit "/online") = part :: args
       ∧ lookup_command (ascii_lower part) command_handlers = None
       ∧ leading_token (lit "/online") ≠ lit "/help").
Proof.
  apply (help_never_reaches_the_server ascii_lower (lit " /online ") (lit "/online")).
  - reflexivity.
  - vm_compute. reflexivity.
Defined.
